(** * ASA policy frontend: the client-side synchronisation pipeline

    A shallow embedding of the JavaScript of [js/public/policies.js],
    [js/public/bylaws.js] and of the admin action handlers
    ([js/admin/deletePolicy.js], [approvePolicy], [js/admin/profile.js]),
    with the properties the specification states about them.

    Conventions of the embedding.
    - JavaScript strings are [string]s (sequences of 8-bit characters); case
      mapping and white space are the ASCII ones.
    - JavaScript numbers that the code computes with are integers, modelled
      as [Z]; [parseInt] is exact on digit runs below 2^53.
    - A function that can throw returns a [result]; asynchronous functions
      are run to completion, one at a time (the event loop is single
      threaded), over an explicit page state that records every request
      handed to [fetch]. *)

From Stdlib Require Import ZArith String Ascii List Bool Lia Permutation Sorted.
From Stdlib Require Import OrderedTypeEx.
From stdpp Require Import base list gmap strings pretty.
Import ListNotations.
Local Open Scope string_scope.
Local Open Scope Z_scope.

(** ** JavaScript values, exceptions and strings *)

Module JS.

(** The primitive values a JSON record of the API holds in a field, plus
    [undefined] for a field that is absent. *)
Inductive jsval : Type :=
| VUndefined
| VNull
| VBool (b : bool)
| VNum (n : Z)
| VStr (s : string).

(** The three error classes the code creates or meets. *)
Inductive exn : Type :=
| TypeError (message : string)
| SyntaxError (message : string)
| Error (message : string).

Inductive result (A : Type) : Type :=
| Ok (a : A)
| Throw (e : exn).
Arguments Ok {A} a.
Arguments Throw {A} e.

#[global] Instance result_ret : MRet result := fun A a => Ok a.
#[global] Instance result_bind : MBind result := fun A B k r =>
  match r with
  | Ok a => k a
  | Throw e => Throw e
  end.

(** [ToBoolean]. *)
Definition truthy (v : jsval) : bool :=
  match v with
  | VUndefined | VNull => false
  | VBool b => b
  | VNum n => negb (n =? 0)
  | VStr s => negb (String.eqb s "")
  end.

(** [a || b]. *)
Definition or_else (a b : jsval) : jsval := if truthy a then a else b.

(** The receiver of a string method call such as [v.split('.')] or
    [v.toLowerCase()]: a string has the method, [undefined] and [null] have
    no properties, a number or boolean has no such method. *)
Definition string_method (name : string) (v : jsval) : result string :=
  match v with
  | VStr s => Ok s
  | VUndefined | VNull =>
      Throw (TypeError ("Cannot read properties of undefined (reading '" ++ name ++ "')"))
  | VBool _ | VNum _ => Throw (TypeError (name ++ " is not a function"))
  end.

Definition is_upper (c : ascii) : bool :=
  let n := nat_of_ascii c in (Nat.leb 65 n && Nat.leb n 90)%bool.

Definition lower_char (c : ascii) : ascii :=
  if is_upper c then ascii_of_nat (nat_of_ascii c + 32) else c.

(** [String.prototype.toLowerCase]. *)
Fixpoint toLowerCase (s : string) : string :=
  match s with
  | EmptyString => EmptyString
  | String c s' => String (lower_char c) (toLowerCase s')
  end.

(** [String.prototype.includes]: some suffix of [s] starts with [q]. *)
Fixpoint includes (s q : string) : bool :=
  (String.prefix q s ||
   match s with
   | EmptyString => false
   | String _ s' => includes s' q
   end)%bool.

Definition is_space (c : ascii) : bool :=
  let n := nat_of_ascii c in
  (Nat.eqb n 32 || (Nat.leb 9 n && Nat.leb n 13))%bool.

Fixpoint trimStart (s : string) : string :=
  match s with
  | EmptyString => EmptyString
  | String c s' => if is_space c then trimStart s' else s
  end.

(** Drops trailing white space: a character is kept when it is not white
    space or when something is kept after it. *)
Fixpoint trimEnd (s : string) : string :=
  match s with
  | EmptyString => EmptyString
  | String c s' =>
      match trimEnd s' with
      | EmptyString => if is_space c then EmptyString else String c EmptyString
      | t => String c t
      end
  end.

(** [String.prototype.trim]. *)
Definition trim (s : string) : string := trimEnd (trimStart s).

(** [s.split('.')], accumulating the current segment in [cur]; the result
    always has at least one segment. *)
Fixpoint split_from (cur : string) (s : string) : list string :=
  match s with
  | EmptyString => [cur]
  | String c s' =>
      if Ascii.eqb c "."%char then cur :: split_from EmptyString s'
      else split_from (cur ++ String c EmptyString) s'
  end.

Definition split_dot (s : string) : list string := split_from EmptyString s.

Definition digit_of (c : ascii) : option Z :=
  let n := nat_of_ascii c in
  if (Nat.leb 48 n && Nat.leb n 57)%bool then Some (Z.of_nat n - 48) else None.

(** The longest run of decimal digits at the start of [s], read as a
    number continuing [acc]; [seen] tells whether a digit was read. *)
Fixpoint digits_from (acc : Z) (seen : bool) (s : string) : option Z :=
  match s with
  | EmptyString => if seen then Some acc else None
  | String c s' =>
      match digit_of c with
      | Some d => digits_from (10 * acc + d) true s'
      | None => if seen then Some acc else None
      end
  end.

(** [parseInt(s, 10)]: leading white space is skipped, one sign is read,
    then the longest digit prefix; [None] is [NaN]. *)
Definition parseInt (s : string) : option Z :=
  match trimStart s with
  | String "-"%char s' => option_map Z.opp (digits_from 0 false s')
  | String "+"%char s' => digits_from 0 false s'
  | t => digits_from 0 false t
  end.

End JS.
Export JS.

(** ** Items of the listing page and the identifier-aware sorter *)

(** The object built for each policy in [renderSections]
    ([{id, policyId, name, section, sectionName}]). *)
Record item : Type := Item {
  item_id : jsval;
  item_policyId : jsval;
  item_name : jsval;
  item_section : jsval;
  item_sectionName : jsval
}.

Module Sorter.
Section WithLocale.

(** [String.prototype.localeCompare] depends on the collation of the host;
    it is a parameter. Only the sign of its result is used. *)
Variable localeCompare : string -> string -> Z.

(** [part => { const num = parseInt(part, 10); return isNaN(num) ? 0 : num; }] *)
Definition parsePart (part : string) : Z :=
  match parseInt part with
  | Some num => num
  | None => 0
  end.

(** [partsA[i] || 0]: an index past the end reads [undefined]. *)
Definition partAt (parts : list Z) (i : nat) : Z := default 0 (parts !! i).

(** The [for] loop of the comparator, with [remaining = maxLength - i]
    iterations left; [None] when the loop ends without returning. *)
Fixpoint compareParts (remaining i : nat) (partsA partsB : list Z) : option Z :=
  match remaining with
  | O => None
  | S remaining' =>
      let partA := partAt partsA i in
      let partB := partAt partsB i in
      if partA <? partB then Some (-1)
      else if partA >? partB then Some 1
      else compareParts remaining' (S i) partsA partsB
  end.

(** The comparator once both identifiers are known to be strings. *)
Definition comparePolicyIds (policyIdA policyIdB : string) : Z :=
  let partsA := map parsePart (split_dot policyIdA) in
  let partsB := map parsePart (split_dot policyIdB) in
  let maxLength := Nat.max (length partsA) (length partsB) in
  match compareParts maxLength 0 partsA partsB with
  | Some r => r
  | None => localeCompare policyIdA policyIdB
  end.

(** The arrow function handed to [items.sort]. *)
Definition comparator (a b : item) : result Z :=
  let policyIdA := or_else (item_policyId a) (VStr "") in
  let policyIdB := or_else (item_policyId b) (VStr "") in
  sA ← string_method "split" policyIdA;
  sB ← string_method "split" policyIdB;
  mret (comparePolicyIds sA sB).

(** [Array.prototype.sort] with a comparison function: a stable sort, here
    by insertion; an exception of the comparison function ends the sort.
    The element [x] stood before every element of [sorted] and is moved
    behind those it compares greater than. *)
Fixpoint insertSorted {A} (cmp : A -> A -> result Z) (x : A) (sorted : list A)
  : result (list A) :=
  match sorted with
  | [] => Ok [x]
  | y :: rest =>
      v ← cmp x y;
      if v >? 0 then r ← insertSorted cmp x rest; mret (y :: r)
      else mret (x :: y :: rest)
  end.

Fixpoint arraySort {A} (cmp : A -> A -> result Z) (l : list A) : result (list A) :=
  match l with
  | [] => Ok []
  | x :: l' => s ← arraySort cmp l'; insertSorted cmp x s
  end.

Definition sortItemsByPolicyNumber (items : list item) : result (list item) :=
  arraySort comparator items.

(** *** The order as the specification words it *)

(** Dot-separated segments, each parsed as an integer, unparsable ones 0. *)
Definition segments (ident : string) : list Z :=
  map (fun seg => default 0 (parseInt seg)) (split_dot ident).

(** The shorter sequence is padded with 0 up to [n] segments. *)
Definition padTo (n : nat) (l : list Z) : list Z :=
  l ++ replicate (n - length l) 0.

(** Segment by segment, left to right. *)
Fixpoint segmentwise (a b : list Z) : comparison :=
  match a, b with
  | x :: a', y :: b' =>
      match x ?= y with
      | Eq => segmentwise a' b'
      | c => c
      end
  | _, _ => Eq
  end.

Definition spec_compare (a b : string) : Z :=
  let n := Nat.max (length (segments a)) (length (segments b)) in
  match segmentwise (padTo n (segments a)) (padTo n (segments b)) with
  | Lt => -1
  | Gt => 1
  | Eq => localeCompare a b
  end.

(** The identifier as the comparator reads it: a missing one is empty. *)
Definition identifier (it : item) : string :=
  match or_else (item_policyId it) (VStr "") with
  | VStr s => s
  | _ => ""
  end.


(** What the loop returns for an outcome of the segment-wise comparison. *)
Definition outcome_of (c : comparison) : option Z :=
  match c with
  | Lt => Some (-1)
  | Gt => Some 1
  | Eq => None
  end.

(** The segment-wise comparison at any common length that holds both. *)
Definition numeric (n : nat) (a b : string) : comparison :=
  segmentwise (padTo n (segments a)) (padTo n (segments b)).

End WithLocale.
End Sorter.

(** A collation to run the sorter with: comparison by character code. *)
Definition codeUnitCompare (a b : string) : Z :=
  match String.compare a b with
  | Lt => -1
  | Eq => 0
  | Gt => 1
  end.

(** ** The API client ([apiRequest]) *)

Module Api.

#[global] Instance jsval_eq_dec : EqDecision jsval.
Proof. solve_decision. Defined.

#[global] Instance jsval_countable : Countable jsval.
Proof.
  refine (inj_countable'
    (fun v => match v with
              | VUndefined => inl ()
              | VNull => inr (inl ())
              | VBool b => inr (inr (inl b))
              | VNum n => inr (inr (inr (inl n)))
              | VStr s => inr (inr (inr (inr s)))
              end)
    (fun x => match x with
              | inl _ => VUndefined
              | inr (inl _) => VNull
              | inr (inr (inl b)) => VBool b
              | inr (inr (inr (inl n))) => VNum n
              | inr (inr (inr (inr s))) => VStr s
              end) _).
  intros []; reflexivity.
Defined.

(** [ToString], as used by template literals, property keys and
    [new Error(message)]. *)
Definition toString (v : jsval) : string :=
  match v with
  | VUndefined => "undefined"
  | VNull => "null"
  | VBool true => "true"
  | VBool false => "false"
  | VNum n => pretty n
  | VStr s => s
  end.

(** A parsed JSON body. The records of this API are flat: the fields of an
    object are primitives. *)
Unset Elimination Schemes.
Inductive json : Type :=
| JPrim (v : jsval)
| JObject (fields : gmap string jsval)
| JArray (elems : list json).
Set Elimination Schemes.

(** Reading the property [key] of a parsed value that is not an array
    index or a built-in property. *)
Definition get_prop (j : json) (key : string) : result jsval :=
  match j with
  | JPrim VNull | JPrim VUndefined =>
      Throw (TypeError ("Cannot read properties of null (reading '" ++ key ++ "')"))
  | JPrim _ | JArray _ => Ok VUndefined
  | JObject fields => Ok (default VUndefined (fields !! key))
  end.

(** What the client sees of a [Response]: the status and what
    [response.json()] settles to. *)
Record response : Type := Response {
  status : Z;
  body : result json
}.

(** [response.ok] *)
Definition ok (r : response) : bool := (200 <=? status r) && (status r <=? 299).

(** What [await fetch(url, config)] settles to. *)
Inductive fetch_outcome : Type :=
| Rejected (e : exn)
| Responded (r : response).

Definition NOT_FOUND : string := "Resource not found".
Definition SERVER_ERROR : string := "Server error. Please try again later.".
Definition REQUEST_FAILED : string := "Request failed".
Definition NETWORK_ERROR : string :=
  "Network error. Please check your connection and try again.".
Definition FAILED_TO_FETCH : string := "Failed to fetch".

(** The body of the [try] block of [apiRequest]. *)
Definition apiRequest_try (o : fetch_outcome) : result json :=
  match o with
  | Rejected e => Throw e
  | Responded response =>
      if negb (ok response) then
        if status response =? 404 then Throw (Error NOT_FOUND)
        else if status response >=? 500 then Throw (Error SERVER_ERROR)
        else
          (* response.json().catch(() => ({ detail: 'Request failed' })) *)
          let error :=
            match body response with
            | Ok j => j
            | Throw _ => JObject {[ "detail" := VStr REQUEST_FAILED ]}
            end in
          detail ← get_prop error "detail";
          Throw (Error (toString (or_else detail (VStr REQUEST_FAILED))))
      else if status response =? 204 then Ok (JPrim VNull)
      else body response
  end.

(** [apiRequest] once [fetch] has settled: the [catch] block rewords the
    [TypeError] of a failed fetch and rethrows anything else. *)
Definition apiRequest_settle (o : fetch_outcome) : result json :=
  match apiRequest_try o with
  | Throw (TypeError message) =>
      if String.eqb message FAILED_TO_FETCH then Throw (Error NETWORK_ERROR)
      else Throw (TypeError message)
  | r => r
  end.

(** A request handed to [fetch]: the method, the endpoint below
    [API_BASE_URL] and the fields of the JSON body, if any. *)
Record request : Type := Request {
  req_method : string;
  req_endpoint : string;
  req_body : option (list (string * jsval))
}.


Definition GET (endpoint : string) : request := Request "GET" endpoint None.

(** The remote API: what the [n]-th request of the page settles to. *)
Definition server : Type := nat -> request -> fetch_outcome.

Definition hex_digit (n : nat) : ascii :=
  if Nat.ltb n 10 then ascii_of_nat (48 + n) else ascii_of_nat (55 + n).

Definition unreserved (c : ascii) : bool :=
  let n := nat_of_ascii c in
  (Nat.leb 65 n && Nat.leb n 90) || (Nat.leb 97 n && Nat.leb n 122) ||
  (Nat.leb 48 n && Nat.leb n 57) ||
  existsb (Ascii.eqb c) ["-"; "_"; "."; "!"; "~"; "*"; "'"; "("; ")"]%char.

(** [encodeURIComponent] *)
Fixpoint encodeURIComponent (s : string) : string :=
  match s with
  | EmptyString => EmptyString
  | String c s' =>
      if unreserved c then String c (encodeURIComponent s')
      else
        let n := nat_of_ascii c in
        String "%" (String (hex_digit (n / 16)) (String (hex_digit (n mod 16))
          (encodeURIComponent s')))
  end.

(** *** Classes of responses *)

(** A status in the range 200..299. *)
Definition is2xx (r : response) : Prop := 200 <= status r <= 299.


End Api.
Export Api.

(** ** The public listing page ([js/public/policies.js]) *)

Module Policies.

(** An entry of the [sections] array of [renderSections]. *)
Record sectionInfo : Type := SectionInfo {
  sec_id : Z;
  sec_title : string;
  sec_key : string
}.

(** A section together with the items to show in it
    ([{ ...section, items }]). *)
Record sectionWithItems : Type := SectionWithItems {
  sw_section : sectionInfo;
  sw_items : list item
}.

(** The element built by [createSectionElement]: its [data-section-id],
    its title, whether the arrow and the content carry the class [open],
    and the items of its cards (none: the placeholder is shown). *)
Record sectionEl : Type := SectionEl {
  data_section_id : Z;
  el_title : string;
  arrow_open : bool;
  content_open : bool;
  cards : list item
}.

(** A child of [#sectionsContainer]. *)
Inductive child : Type :=
| SectionChild (el : sectionEl)
| NoResults.

(** The module state with the parts of the document the code touches and
    the requests handed to [fetch] so far, oldest first. [container] is
    [None] when the document has no [#sectionsContainer]. *)
Record page : Type := Page {
  openSections : list Z;
  searchTerm : string;
  currentPolicyIds : gset jsval;
  container : option (list child);
  notifications : list string;
  requests : list request
}.

Definition with_openSections (st : page) (o : list Z) : page :=
  Page o (searchTerm st) (currentPolicyIds st) (container st)
       (notifications st) (requests st).
Definition with_searchTerm (st : page) (q : string) : page :=
  Page (openSections st) q (currentPolicyIds st) (container st)
       (notifications st) (requests st).
Definition with_currentPolicyIds (st : page) (ids : gset jsval) : page :=
  Page (openSections st) (searchTerm st) ids (container st)
       (notifications st) (requests st).
Definition with_container (st : page) (c : option (list child)) : page :=
  Page (openSections st) (searchTerm st) (currentPolicyIds st) c
       (notifications st) (requests st).
Definition with_notifications (st : page) (n : list string) : page :=
  Page (openSections st) (searchTerm st) (currentPolicyIds st) (container st)
       n (requests st).
Definition with_requests (st : page) (r : list request) : page :=
  Page (openSections st) (searchTerm st) (currentPolicyIds st) (container st)
       (notifications st) r.

(** The module variables when the script is loaded
    ([openSections = [1, 2, 3]], [searchTerm = ""], an empty
    [currentPolicyIds]), in a document with the given container. *)
Definition initialPage (container : option (list child)) : page :=
  Page [1; 2; 3] "" ∅ container [] [].

(** Computations over the page. *)
Definition M (A : Type) : Type := page -> A * page.

#[global] Instance M_ret : MRet M := fun A a st => (a, st).
#[global] Instance M_bind : MBind M := fun A B k m st =>
  let (a, st') := m st in k a st'.

(** Reading a module variable. *)
Definition gets {A} (f : page -> A) : M A := fun st => (f st, st).

Definition sectionNames : gmap string string :=
  {[ "1" := "Organizational Identity & Values";
     "2" := "Governance & Elections";
     "3" := "Operations, Staff & Finance" ]}.

(** [getSectionName], on the property key its argument converts to. *)
Definition getSectionName (section : string) : string :=
  default ("Section " ++ section)%string (sectionNames !! section).

Definition sections : list sectionInfo :=
  [ SectionInfo 1 (getSectionName "1") "1";
    SectionInfo 2 (getSectionName "2") "2";
    SectionInfo 3 (getSectionName "3") "3" ].

(** The fields of a mapped policy that the page reads. [name] and
    [policyName] are both filled from [policy_name]. *)
Record policy : Type := Policy {
  policy_id : jsval;
  policy_policyId : jsval;
  policy_name : jsval;
  policy_policyName : jsval;
  policy_section : jsval
}.

(** The arrow function of [policies.map] in [getApprovedPolicies]. *)
Definition mapPolicy (p : json) : result policy :=
  id ← get_prop p "id";
  policyId ← get_prop p "policy_id";
  name ← get_prop p "policy_name";
  section ← get_prop p "section";
  mret (Policy id policyId name name section).

(** [policies.map(...)]: only an array has [map]. *)
Definition mapPolicies (policies : json) : result (list policy) :=
  match policies with
  | JArray elems => mapM mapPolicy elems
  | JPrim VNull | JPrim VUndefined =>
      Throw (TypeError "Cannot read properties of null (reading 'map')")
  | _ => Throw (TypeError "policies.map is not a function")
  end.

Definition APPROVED : string := "/api/policies/approved".

Definition approvedEndpoint (sectionName : option string) : string :=
  match sectionName with
  | Some name =>
      if String.eqb name "" then APPROVED
      else (APPROVED ++ "?section=" ++ encodeURIComponent name)%string
  | None => APPROVED
  end.

Section WithServer.

Variable localeCompare : string -> string -> Z.
Variable api : server.

(** [apiRequest(endpoint)]: the request is recorded and settles as the
    server decides. *)
Definition apiRequest (endpoint : string) : M (result json) := fun st =>
  (apiRequest_settle (api (length (requests st)) (GET endpoint)),
   with_requests st (requests st ++ [GET endpoint])).

(** [getApprovedPolicies]: every error ends in the empty list. *)
Definition getApprovedPolicies (sectionName : option string) : M (list policy) :=
  r ← apiRequest (approvedEndpoint sectionName);
  mret (match r ≫= mapPolicies with
        | Ok mappedPolicies => mappedPolicies
        | Throw _ => []
        end).

(** The item built for a policy fetched for [section]. *)
Definition sectionItem (section : sectionInfo) (p : policy) : item :=
  {| item_id := policy_id p;
     item_policyId := or_else (policy_policyId p) (policy_id p);
     item_name := or_else (or_else (policy_name p) (policy_policyName p))
                          (VStr "Untitled");
     item_section := VStr (sec_key section);
     item_sectionName := VStr (sec_title section) |}.

(** [(field || '').toLowerCase().includes(searchTerm.toLowerCase())] *)
Definition fieldIncludes (field : jsval) (q : string) : result bool :=
  s ← string_method "toLowerCase" (or_else field (VStr ""));
  mret (includes (toLowerCase s) (toLowerCase q)).

(** The predicate of the search filter; [||] evaluates its right operand
    only when the left one is false. *)
Definition matchesSearch (q : string) (it : item) : result bool :=
  byName ← fieldIncludes (item_name it) q;
  if byName : bool then mret true
  else
    byId ← fieldIncludes (item_policyId it) q;
    if byId : bool then mret true
    else fieldIncludes (item_sectionName it) q.

(** [Array.prototype.filter] with a predicate that can throw. *)
Fixpoint filterItems (f : item -> result bool) (l : list item) : result (list item) :=
  match l with
  | [] => Ok []
  | x :: l' =>
      keep ← f x;
      r ← filterItems f l';
      mret (if keep : bool then x :: r else r)
  end.

(** The search filter: [if (searchTerm !== '') filteredItems = items.filter(...)]. *)
Definition applySearchFilter (q : string) (items : list item) : result (list item) :=
  if String.eqb q "" then Ok items else filterItems (matchesSearch q) items.

Definition filterAndSort (q : string) (items : list item) : result (list item) :=
  filteredItems ← applySearchFilter q items;
  Sorter.sortItemsByPolicyNumber localeCompare filteredItems.

(** One of the per-section tasks of the primary path. The flag tells
    whether its [catch] block ran, which sets [useFallback]. *)
Definition fetchSection (section : sectionInfo) : M (bool * sectionWithItems) :=
  policies ← getApprovedPolicies (Some (sec_title section));
  q ← gets searchTerm;
  mret (match filterAndSort q (map (sectionItem section) policies) with
        | Ok filteredItems => (false, SectionWithItems section filteredItems)
        | Throw _ => (true, SectionWithItems section [])
        end).

(** [Promise.all(sections.map(...))]: the requests leave in the order of
    the sections; the tasks share nothing but the flag. *)
Fixpoint fetchSections (secs : list sectionInfo) : M (bool * list sectionWithItems) :=
  match secs with
  | [] => mret (false, [])
  | section :: rest =>
      '(failed, sw) ← fetchSection section;
      '(failedRest, sws) ← fetchSections rest;
      mret (failed || failedRest, sw :: sws)
  end.

(** Names [Object.prototype] answers for: [sectionsMap[key]] is then truthy
    although the key is not a section. *)
Definition prototypeKeys : list string :=
  [ "constructor"; "__proto__"; "hasOwnProperty"; "isPrototypeOf";
    "propertyIsEnumerable"; "toLocaleString"; "toString"; "valueOf";
    "__defineGetter__"; "__defineSetter__"; "__lookupGetter__";
    "__lookupSetter__" ].

(** The item pushed for a policy of the unfiltered list. *)
Definition groupedItem (section : jsval) (p : policy) : item :=
  {| item_id := policy_id p;
     item_policyId := or_else (policy_policyId p) (policy_id p);
     item_name := or_else (or_else (policy_name p) (policy_policyName p))
                          (VStr "Untitled");
     item_section := section;
     item_sectionName := VStr (getSectionName (toString section)) |}.

(** The body of [allPolicies.forEach]: [sectionsMap] is kept as the list
    of its values, one per section key. *)
Definition pushPolicy (sectionsMap : list sectionWithItems) (p : policy)
  : result (list sectionWithItems) :=
  let section := or_else (policy_section p) (VStr "1") in
  let key := toString section in
  if existsb (fun sw => String.eqb (sec_key (sw_section sw)) key) sectionsMap then
    Ok (map (fun sw =>
               if String.eqb (sec_key (sw_section sw)) key
               then SectionWithItems (sw_section sw)
                                     (sw_items sw ++ [groupedItem section p])
               else sw) sectionsMap)
  else if existsb (String.eqb key) prototypeKeys then
    Throw (TypeError "Cannot read properties of undefined (reading 'push')")
  else Ok sectionsMap.

Fixpoint groupBySection (sectionsMap : list sectionWithItems) (allPolicies : list policy)
  : result (list sectionWithItems) :=
  match allPolicies with
  | [] => Ok sectionsMap
  | p :: rest => m ← pushPolicy sectionsMap p; groupBySection m rest
  end.

(** The [try] block of the fallback path after its fetch. *)
Definition fallbackSections (q : string) (allPolicies : list policy)
  : result (list sectionWithItems) :=
  sectionsMap ← groupBySection (map (fun s => SectionWithItems s []) sections)
                               allPolicies;
  mapM (fun sw => filteredItems ← filterAndSort q (sw_items sw);
                  mret (SectionWithItems (sw_section sw) filteredItems))
       sectionsMap.

(** The part of [renderSections] that computes [sectionsWithItems]. *)
Definition collectSections : M (list sectionWithItems) :=
  '(useFallback, sectionsWithItems) ← fetchSections sections;
  if useFallback : bool then
    allPolicies ← getApprovedPolicies None;
    q ← gets searchTerm;
    mret (match fallbackSections q allPolicies with
          | Ok grouped => grouped
          | Throw _ => sectionsWithItems
          end)
  else mret sectionsWithItems.

Definition createSectionElement (open : list Z) (sw : sectionWithItems) : sectionEl :=
  let isOpen := bool_decide (sec_id (sw_section sw) ∈ open) in
  SectionEl (sec_id (sw_section sw)) (sec_title (sw_section sw)) isOpen isOpen
            (sw_items sw).

(** [shouldShow] *)
Definition shouldShow (q : string) (sw : sectionWithItems) : bool :=
  negb (Nat.eqb (length (sw_items sw)) 0) || String.eqb q "".

(** The children of the container after the rendering loop: an element
    for each section to show, or the "No results found" message. *)
Definition renderChildren (q : string) (open : list Z)
    (sectionsWithItems : list sectionWithItems) : list child :=
  match map (fun sw => SectionChild (createSectionElement open sw))
            (List.filter (shouldShow q) sectionsWithItems) with
  | [] => [NoResults]
  | children => children
  end.

(** The identifier recorded for an item: [item.policyId || item.id]. *)
Definition recordedId (it : item) : jsval := or_else (item_policyId it) (item_id it).

(** [currentPolicyIds] after [clear()] and the [add] of every item. *)
Definition recordedIds (sectionsWithItems : list sectionWithItems) : gset jsval :=
  list_to_set (map recordedId (flat_map sw_items sectionsWithItems)).

Definition renderSections : M unit := fun st =>
  match container st with
  | None => (tt, st)
  | Some _ =>
      let (sectionsWithItems, st1) := collectSections (with_container st (Some [])) in
      (tt, with_currentPolicyIds
             (with_container st1
                (Some (renderChildren (searchTerm st1) (openSections st1)
                                      sectionsWithItems)))
             (recordedIds sectionsWithItems))
  end.

(** The text of the notification for [count] new policies. *)
Definition notificationText (count : Z) : string :=
  ("✨ " ++ pretty count ++ " new " ++
   (if Z.eqb count 1 then "policy" else "policies") ++ " " ++
   (if Z.eqb count 1 then "has" else "have") ++ " been approved!")%string.

(** [showNewPoliciesNotification]: the first notification still in the
    document is removed and the new one appended to the body. The timers
    that remove it after five seconds are outside the model. *)
Definition showNewPoliciesNotification (count : Z) (st : page) : page :=
  with_notifications st
    (match notifications st with
     | [] => []
     | _ :: others => others
     end ++ [notificationText count]).

(** The identifier the poller records for a policy:
    [policy.policyId || policy.id]. *)
Definition polledId (p : policy) : jsval := or_else (policy_policyId p) (policy_id p).

Definition checkForNewPolicies : M unit := fun st =>
  match container st with
  | None => (tt, st)
  | Some _ =>
      let (allPolicies, st1) := getApprovedPolicies None st in
      let newPolicyIds : gset jsval := list_to_set (map polledId allPolicies) in
      if (size (currentPolicyIds st1) <? size newPolicyIds)%nat then
        let newCount :=
          Z.of_nat (size newPolicyIds) - Z.of_nat (size (currentPolicyIds st1)) in
        renderSections (showNewPoliciesNotification newCount st1)
      else (tt, st1)
  end.

(** [openSections.indexOf(sectionId)], [None] for -1. *)
Fixpoint indexOf (sectionId : Z) (l : list Z) : option nat :=
  match l with
  | [] => None
  | x :: l' => if x =? sectionId then Some O else S <$> indexOf sectionId l'
  end.

(** [container.querySelector('[data-section-id="..."]')] followed by the
    update of the classes of its content and arrow: the first section
    element with that attribute is the one changed. *)
Fixpoint setOpenClass (sectionId : Z) (isOpen : bool) (children : list child)
  : list child :=
  match children with
  | [] => []
  | SectionChild el :: rest =>
      if data_section_id el =? sectionId then
        SectionChild (SectionEl (data_section_id el) (el_title el) isOpen isOpen
                                (cards el)) :: rest
      else SectionChild el :: setOpenClass sectionId isOpen rest
  | NoResults :: rest => NoResults :: setOpenClass sectionId isOpen rest
  end.

Definition toggleSection (sectionId : Z) (st : page) : page :=
  let st1 :=
    with_openSections st
      (match indexOf sectionId (openSections st) with
       | Some index => delete index (openSections st)
       | None => openSections st ++ [sectionId]
       end) in
  match container st1 with
  | None => st1
  | Some children =>
      let isOpen := bool_decide (sectionId ∈ openSections st1) in
      with_container st1 (Some (setOpenClass sectionId isOpen children))
  end.

Definition handleSearch (value : string) : M unit := fun st =>
  let st1 := with_searchTerm st value in
  let st2 := if String.eqb value "" then st1 else with_openSections st1 [1; 2; 3] in
  renderSections st2.

End WithServer.

(** *** Notions used to state the properties of the page *)



(** [st] with the requests [sent] appended to its log. *)
Definition after (st : page) (sent : list request) : page :=
  with_requests st (requests st ++ sent).

(** The request of the primary path for a section. *)
Definition sectionRequest (section : sectionInfo) : request :=
  GET (approvedEndpoint (Some (sec_title section))).

(** The key a policy is filed under: [policy.section || '1'], as a
    property key. *)
Definition sectionKeyOf (p : policy) : string :=
  toString (or_else (policy_section p) (VStr "1")).

(** The item the fallback path pushes for a policy. *)
Definition itemOf (p : policy) : item :=
  groupedItem (or_else (policy_section p) (VStr "1")) p.

(** The items of the policies whose own section has the key [key], in the
    order of the list. *)
Definition groupOf (key : string) (allPolicies : list policy) : list item :=
  map itemOf (List.filter (fun p => String.eqb key (sectionKeyOf p)) allPolicies).

(** A section with the items of its group appended. *)
Definition extend (allPolicies : list policy) (sw : sectionWithItems)
  : sectionWithItems :=
  SectionWithItems (sw_section sw)
                   (sw_items sw ++ groupOf (sec_key (sw_section sw)) allPolicies).


End Policies.

(** ** The search filter as the specification words it *)

Module SearchSpec.







End SearchSpec.

(** ** The suggestion form ([js/public/bylaws.js]) *)

Module Suggestions.

(** The three form controls, what was alerted, which control has the
    focus, whether the success message is shown, and the requests sent. *)
Record form : Type := Form {
  policySelect : string;
  suggestionText : string;
  emailInput : string;
  alerts : list string;
  focused : option string;
  successShown : bool;
  requests : list request
}.

Definition nl : string := String (ascii_of_nat 10) EmptyString.

Definition reject (st : form) (message control : string) : form :=
  Form (policySelect st) (suggestionText st) (emailInput st)
       (alerts st ++ [message]) (Some control) (successShown st) (requests st).

Definition ENTER_EMAIL : string := "Please enter your UAlberta email address".
Definition SELECT_POLICY : string := "Please select a policy to refer to.".
Definition ENTER_SUGGESTION : string := "Please enter your suggestion.".
Definition VALID_EMAIL : string := "Please enter a valid UAlberta email address".
Definition THANK_YOU : string :=
  ("Thank you for your suggestion!" ++ nl ++ nl ++
   "Your feedback has been submitted successfully.")%string.
Definition SUBMIT_FAILED : string :=
  "Failed to submit suggestion. Please try again later.".

(** The body handed to [JSON.stringify]. *)
Definition suggestionBody (selectedPolicyId suggestion : string)
  : list (string * jsval) :=
  [ ("policy_id", VStr selectedPolicyId);
    ("suggestion", VStr suggestion);
    ("status", VStr "pending") ].

(** The [submit] handler of [#suggestionForm]. *)
Definition submit (api : server) (st : form) : form :=
  let selectedPolicyId := policySelect st in
  let suggestion := trim (suggestionText st) in
  let email := trim (emailInput st) in
  if String.eqb email "" then reject st ENTER_EMAIL "emailInput"
  else if String.eqb selectedPolicyId "" then reject st SELECT_POLICY "policySelect"
  else if String.eqb suggestion "" then reject st ENTER_SUGGESTION "suggestionText"
  else if negb (includes (emailInput st) "@ualberta.ca") then
    reject st VALID_EMAIL "emailInput"
  else
    let req := Request "POST" "/api/suggestions"
                       (Some (suggestionBody selectedPolicyId suggestion)) in
    let sent := (requests st ++ [req])%list in
    match apiRequest_settle (api (length (requests st)) req) with
    | Ok _ =>
        Form "" "" "" (alerts st ++ [THANK_YOU]) (focused st) true sent
    | Throw _ =>
        Form (policySelect st) (suggestionText st) (emailInput st)
             (alerts st ++ [SUBMIT_FAILED]) (focused st) (successShown st) sent
    end.



End Suggestions.

(** ** The admin actions ([js/admin]) *)

Module Admin.

(** A request of an admin page: these call [fetch] themselves and send the
    bearer token. *)
Record authRequest : Type := AuthRequest {
  auth_method : string;
  auth_url : string;
  auth_bearer : string
}.

(** A response as the admin handlers read it. *)
Record adminResponse : Type := AdminResponse {
  resp : response;
  statusText : string;
  text : string
}.

Inductive adminOutcome : Type :=
| AdminRejected (e : exn)
| AdminResponded (r : adminResponse).

(** The browser as the admin handlers see it: the token under the key
    [accessToken] of [localStorage], the address of the window, the alerts
    shown, the requests sent and how often [onSuccess] was called. *)
Record browser : Type := Browser {
  accessToken : option string;
  location : string;
  alerts : list string;
  requests : list authRequest;
  onSuccessCalls : nat
}.

Definition alert (message : string) (st : browser) : browser :=
  Browser (accessToken st) (location st) (alerts st ++ [message]) (requests st)
          (onSuccessCalls st).
Definition redirect (href : string) (st : browser) : browser :=
  Browser (accessToken st) href (alerts st) (requests st) (onSuccessCalls st).
Definition send (r : authRequest) (st : browser) : browser :=
  Browser (accessToken st) (location st) (alerts st) (requests st ++ [r])
          (onSuccessCalls st).
(** [if (onSuccess) onSuccess()] *)
Definition callOnSuccess (given : bool) (st : browser) : browser :=
  if given then
    Browser (accessToken st) (location st) (alerts st) (requests st)
            (S (onSuccessCalls st))
  else st.
(** [localStorage.removeItem('accessToken')] *)
Definition removeToken (st : browser) : browser :=
  Browser None (location st) (alerts st) (requests st) (onSuccessCalls st).

Definition BASE : string := "https://asa-policy-backend.onrender.com".
Definition LOGIN : string := "admin/login.html".
Definition SESSION_EXPIRED : string := "Your session has expired. Please login again.".
Definition ONLY_ADMIN_DELETE : string := "Sorry, only admin is allowed to delete policy.".
Definition ONLY_ADMIN_APPROVE : string := "Only admins can approve policies.".
Definition POLICY_GONE : string := "Policy not found. It may have already been deleted.".
Definition nl : string := String (ascii_of_nat 10) EmptyString.

Definition message_of (e : exn) : string :=
  match e with
  | TypeError m | SyntaxError m | Error m => m
  end.

(** [!token] *)
Definition noToken (token : option string) : bool :=
  match token with
  | None => true
  | Some t => String.eqb t ""
  end.

Definition bearer (token : option string) : string := default "" token.

(** The second [try] block of [deletePolicy]: the [DELETE] request. *)
Definition deletePolicy_request (policyId : string) (onSuccess : bool)
    (del : adminOutcome) (st : browser) : browser :=
  let failed (message : string) (s : browser) :=
    alert ("Failed to delete policy. Please try again." ++ nl ++ nl ++
           "Error: " ++ message)%string s in
  let st1 :=
    send (AuthRequest "DELETE"
            (BASE ++ "/api/policies/" ++ encodeURIComponent policyId)%string
            (bearer (accessToken st))) st in
  match del with
  | AdminRejected e => failed (message_of e) st1
  | AdminResponded response =>
      if negb (ok (resp response)) then
        if status (resp response) =? 401 then
          redirect LOGIN (alert SESSION_EXPIRED st1)
        else if status (resp response) =? 403 then alert ONLY_ADMIN_DELETE st1
        else if status (resp response) =? 404 then
          callOnSuccess onSuccess (alert POLICY_GONE st1)
        else
          failed ("Failed to delete policy: " ++ pretty (status (resp response)) ++
                  " - " ++ text response)%string st1
      else callOnSuccess onSuccess (alert "Policy deleted successfully." st1)
  end.

(** [deletePolicy(policyId, policyName, onSuccess)]; [confirmed] is the
    answer to the confirmation dialog, [me] and [del] what the two requests
    settle to. *)
Definition deletePolicy (policyId : string) (onSuccess confirmed : bool)
    (me del : adminOutcome) (st : browser) : browser :=
  if noToken (accessToken st) then
    redirect LOGIN (alert "Please login to delete policies." st)
  else
    let st1 := send (AuthRequest "GET" (BASE ++ "/api/auth/me")%string
                                 (bearer (accessToken st))) st in
    let unverified := alert "Failed to verify permissions. Please try again." st1 in
    match me with
    | AdminRejected _ => unverified
    | AdminResponded userResponse =>
        if negb (ok (resp userResponse)) then
          if status (resp userResponse) =? 401 then
            redirect LOGIN (alert SESSION_EXPIRED st1)
          else unverified
        else
          match body (resp userResponse) ≫= (fun userData => get_prop userData "role") with
          | Throw _ => unverified
          | Ok userRole =>
              if negb (bool_decide (userRole = VStr "admin")) then
                alert ONLY_ADMIN_DELETE st1
              else if negb confirmed then st1
              else deletePolicy_request policyId onSuccess del st1
          end
    end.

(** [approvePolicy(policyId, onSuccess)]. *)
Definition approvePolicy (policyId : string) (onSuccess confirmed : bool)
    (put : adminOutcome) (st : browser) : browser :=
  if noToken (accessToken st) then
    redirect LOGIN (alert "Please login to approve policies." st)
  else if negb confirmed then st
  else
    let st1 :=
      send (AuthRequest "PUT"
              (BASE ++ "/api/policies/" ++ encodeURIComponent policyId ++ "/approve")%string
              (bearer (accessToken st))) st in
    match put with
    | AdminRejected e =>
        alert ("Failed to approve policy. Please try again." ++ nl ++ nl ++
               "Error: " ++ message_of e)%string st1
    | AdminResponded response =>
        if negb (ok (resp response)) then
          if status (resp response) =? 401 then
            redirect LOGIN (alert SESSION_EXPIRED st1)
          else if status (resp response) =? 403 then alert ONLY_ADMIN_APPROVE st1
          else if status (resp response) =? 404 then
            callOnSuccess onSuccess (alert POLICY_GONE st1)
          else
            let errorMessage :=
              match body (resp response) with
              | Ok errorData =>
                  match get_prop errorData "detail" with
                  | Ok detail =>
                      if truthy detail then toString detail
                      else "Failed to approve policy."
                  | Throw _ =>
                      ("Failed to approve policy: " ++ pretty (status (resp response))
                       ++ " " ++ statusText response)%string
                  end
              | Throw _ =>
                  ("Failed to approve policy: " ++ pretty (status (resp response))
                   ++ " " ++ statusText response)%string
              end in
            alert errorMessage st1
        else callOnSuccess onSuccess (alert "Policy approved successfully!" st1)
    end.

(** [handleLogout] of [profile.js], the only place that removes the token. *)
Definition handleLogout (confirmed : bool) (st : browser) : browser :=
  if confirmed then redirect "login.html" (removeToken st) else st.

End Admin.

(** ** Data for the examples *)

Module Examples.
Import Policies.

(** A policy record as the API sends it. *)
Definition policyRecord (id policy_id policy_name section : jsval) : json :=
  JObject {[ "id" := id; "policy_id" := policy_id;
             "policy_name" := policy_name; "section" := section ]}.

Definition alpha : json :=
  policyRecord (VStr "u1") (VStr "1.1.1") (VStr "Alpha") (VStr "1").
Definition beta : json :=
  policyRecord (VStr "u2") (VStr "1.1.2") (VStr "Beta") (VStr "1").
Definition gamma : json :=
  policyRecord (VStr "u3") (VStr "1.1.3") (VStr "Gamma") (VStr "1").
Definition delta : json :=
  policyRecord (VStr "u4") (VStr "2.2.2") (VStr "Delta") (VStr "2").

Definition listing (records : list json) : fetch_outcome :=
  Responded (Response 200 (Ok (JArray records))).

Definition asks (req : request) (sectionName : option string) : bool :=
  String.eqb (req_endpoint req) (approvedEndpoint sectionName).

(** A server that has published four policies, three in the first section
    and one in the second. *)
Definition published : server := fun _ req =>
  if asks req None then listing [alpha; beta; gamma; delta]
  else if asks req (Some (getSectionName "1")) then listing [alpha; beta; gamma]
  else if asks req (Some (getSectionName "2")) then listing [delta]
  else listing [].





(** The same server when the request for the second section fails. *)
Definition secondSectionDown : server := fun n req =>
  if asks req (Some (getSectionName "2")) then
    Responded (Response 500 (Throw (SyntaxError "Unexpected token")))
  else published n req.

(** A server whose only policy has a number for a name and a section that
    is not one of the three. *)
Definition oddRecord : server := fun _ req =>
  if asks req (Some (getSectionName "3")) then listing []
  else listing [policyRecord (VStr "u9") (VStr "9.1") (VNum 5) (VStr "7")].




(** A response with the given status and nothing to read in it. *)
Definition bare (code : Z) : Admin.adminOutcome :=
  Admin.AdminResponded (Admin.AdminResponse (Response code (Throw (SyntaxError ""))) "" "").

(** An admin page with a stored token. *)
Definition loggedIn : Admin.browser :=
  Admin.Browser (Some "token-1") "policies.html" [] [] 0.

End Examples.

(** ** Further notions for the sorter *)

Module SorterEdge.

(** An item whose identifier the comparator can split: a string, or a
    falsy value, which [|| ''] replaces by the empty string. *)
Definition splittable (it : item) : Prop :=
  match or_else (item_policyId it) (VStr "") with
  | VStr _ => True
  | _ => False
  end.

(** Items whose identifier, as the comparator reads it, is [k]. *)
Definition identifiedBy (k : string) (it : item) : bool :=
  String.eqb (Sorter.identifier it) k.

End SorterEdge.

(** ** Runs of the listing page *)

Module PageRuns.
Import Policies.

(** What can happen on the listing page: the sections are rendered, the
    visitor types in the search box or clicks a section header, the poller
    checks. *)
Inductive event : Type :=
| Render
| Typed (value : string)
| Toggle (sectionId : Z)
| Poll.

Definition step (localeCompare : string -> string -> Z) (api : server)
    (e : event) (st : page) : page :=
  match e with
  | Render => snd (renderSections localeCompare api st)
  | Typed value => snd (handleSearch localeCompare api value st)
  | Toggle sectionId => toggleSection sectionId st
  | Poll => snd (checkForNewPolicies localeCompare api st)
  end.

(** The events are handled one after the other. *)
Definition run (localeCompare : string -> string -> Z) (api : server)
    (events : list event) (st : page) : page :=
  fold_left (fun s e => step localeCompare api e s) events st.

(** The [data-section-id]s of the section elements, in document order. *)
Definition sectionIds (children : list child) : list Z :=
  flat_map (fun c => match c with
                     | SectionChild el => [data_section_id el]
                     | NoResults => []
                     end) children.

(** The cards on display, in document order. *)
Definition shownCards (children : list child) : list item :=
  flat_map (fun c => match c with
                     | SectionChild el => cards el
                     | NoResults => []
                     end) children.

(** The arrow and the content of a section element carry the class [open]
    exactly when the section is in the list of open sections. *)
Definition shownAsRecorded (open : list Z) (c : child) : Prop :=
  match c with
  | SectionChild el =>
      arrow_open el = bool_decide (data_section_id el ∈ open) /\
      content_open el = bool_decide (data_section_id el ∈ open)
  | NoResults => True
  end.

(** The state of the page and what it displays agree: no section is
    listed as open twice, at most one notification is shown, and in the
    container no two section elements carry the same identifier, each has
    the class [open] exactly when its section is listed as open, and the
    recorded identifiers are those of the cards on display. *)
Definition consistent (st : page) : Prop :=
  NoDup (openSections st) /\
  (length (notifications st) <= 1)%nat /\
  match container st with
  | None => True
  | Some children =>
      NoDup (sectionIds children) /\
      Forall (shownAsRecorded (openSections st)) children /\
      currentPolicyIds st = list_to_set (map recordedId (shownCards children))
  end.

(** An item that belongs to [section]: filed under its key and labelled
    with its title. *)
Definition filedUnder (section : sectionInfo) (it : item) : Prop :=
  toString (item_section it) = sec_key section /\
  item_sectionName it = VStr (sec_title section).


(** What a rendering holds for a section: nothing, or the filtered and
    sorted items of some list of items that belong to the section. *)
Definition filled (localeCompare : string -> string -> Z) (q : string)
    (section : sectionInfo) (sw : sectionWithItems) : Prop :=
  sw_section sw = section /\
  (sw_items sw = [] \/
   exists source, filterAndSort localeCompare q source = Ok (sw_items sw) /\
                  Forall (filedUnder section) source).



(** A request that only reads the approved policies. *)
Definition readsApproved (r : request) : Prop :=
  req_method r = "GET" /\ req_body r = None /\
  String.prefix APPROVED (req_endpoint r) = true.

End PageRuns.

(** ** The field mapper on a record *)

Module Mapper.
Import Policies.

(** A field of a record of the API, [undefined] when it is absent. *)
Definition fieldOf (fields : gmap string jsval) (key : string) : jsval :=
  default VUndefined (fields !! key).

(** The view-model of a record: both [name] and [policyName] hold
    [policy_name]. *)
Definition mapped (fields : gmap string jsval) : policy :=
  Policy (fieldOf fields "id") (fieldOf fields "policy_id")
         (fieldOf fields "policy_name") (fieldOf fields "policy_name")
         (fieldOf fields "section").

End Mapper.

(** ** What the admin actions send *)

Module AdminRequests.
Import Admin.

Definition meRequest (token : option string) : authRequest :=
  AuthRequest "GET" (BASE ++ "/api/auth/me")%string (bearer token).

Definition deleteRequest (policyId : string) (token : option string) : authRequest :=
  AuthRequest "DELETE" (BASE ++ "/api/policies/" ++ encodeURIComponent policyId)%string
              (bearer token).

Definition approveRequest (policyId : string) (token : option string) : authRequest :=
  AuthRequest "PUT"
    (BASE ++ "/api/policies/" ++ encodeURIComponent policyId ++ "/approve")%string
    (bearer token).

(** The answer to the request for the user says, with a status in
    200..299, that the role is ["admin"]. *)
Definition verifiedAdmin (me : adminOutcome) : bool :=
  match me with
  | AdminRejected _ => false
  | AdminResponded userResponse =>
      ok (resp userResponse) &&
      match body (resp userResponse) ≫= (fun userData => get_prop userData "role") with
      | Ok userRole => bool_decide (userRole = VStr "admin")
      | Throw _ => false
      end
  end.

(** The answers after which the caller's list is refreshed: a success, or
    a 404 (the policy is gone already). *)
Definition refreshes (o : adminOutcome) : bool :=
  match o with
  | AdminRejected _ => false
  | AdminResponded response =>
      ok (resp response) || (status (resp response) =? 404)
  end.

End AdminRequests.

(** ** The poller of the listing page *)

Module Polling.
Import Policies.

(** The listing page with what the poller adds to it: the module variable
    [pollingInterval] ([None] is [null]; the identifiers [setInterval]
    hands out are positive, so truthy), the intervals the browser still
    runs with their delays in milliseconds, oldest first, the
    [visibilitychange] listeners registered so far, each with the
    [intervalSeconds] it has captured, [document.hidden], and the next
    identifier [setInterval] hands out. *)
Record state : Type := State {
  page : Policies.page;
  pollingInterval : option nat;
  live : list (nat * Z);
  listeners : list Z;
  hidden : bool;
  nextTimer : nat
}.

(** The page when the script is loaded. *)
Definition fresh (pg : Policies.page) : state := State pg None [] [] false 1.

Definition clearInterval (id : nat) (s : state) : state :=
  State (page s) (pollingInterval s)
        (List.filter (fun t => negb (Nat.eqb (fst t) id)) (live s))
        (listeners s) (hidden s) (nextTimer s).

(** [pollingInterval = setInterval(checkForNewPolicies, delay)] *)
Definition setPollingInterval (delay : Z) (s : state) : state :=
  State (page s) (Some (nextTimer s)) (live s ++ [(nextTimer s, delay)])
        (listeners s) (hidden s) (S (nextTimer s)).

Definition resetPollingInterval (s : state) : state :=
  State (page s) None (live s) (listeners s) (hidden s) (nextTimer s).

Definition addListener (intervalSeconds : Z) (s : state) : state :=
  State (page s) (pollingInterval s) (live s) (listeners s ++ [intervalSeconds])
        (hidden s) (nextTimer s).

Section WithServer.

Variable localeCompare : string -> string -> Z.
Variable api : server.

(** A call of [checkForNewPolicies], which nobody awaits. *)
Definition check (s : state) : state :=
  State (snd (checkForNewPolicies localeCompare api (page s)))
        (pollingInterval s) (live s) (listeners s) (hidden s) (nextTimer s).

(** [startPolicyPolling(intervalSeconds)] *)
Definition startPolicyPolling (intervalSeconds : Z) (s : state) : state :=
  let s1 := match pollingInterval s with
            | Some id => clearInterval id s
            | None => s
            end in
  match container (page s1) with
  | None => s1
  | Some _ =>
      addListener intervalSeconds
        (setPollingInterval (intervalSeconds * 1000) (check s1))
  end.

(** The [visibilitychange] listener [startPolicyPolling] registers; the
    container it has captured is an element. *)
Definition onVisibilityChange (intervalSeconds : Z) (s : state) : state :=
  if hidden s then
    match pollingInterval s with
    | Some id => resetPollingInterval (clearInterval id s)
    | None => s
    end
  else
    match pollingInterval s with
    | None => setPollingInterval (intervalSeconds * 1000) (check s)
    | Some _ => s
    end.

(** [stopPolicyPolling] *)
Definition stopPolicyPolling (s : state) : state :=
  match pollingInterval s with
  | Some id => resetPollingInterval (clearInterval id s)
  | None => s
  end.

(** What happens to the poller: it is started or stopped, the page is
    hidden or shown again, which runs the listeners in the order of their
    registration, or an interval fires. *)
Inductive pollEvent : Type :=
| Start (intervalSeconds : Z)
| Stop
| Visibility (nowHidden : bool)
| Fire (id : nat).

Definition pollStep (e : pollEvent) (s : state) : state :=
  match e with
  | Start intervalSeconds => startPolicyPolling intervalSeconds s
  | Stop => stopPolicyPolling s
  | Visibility nowHidden =>
      fold_left (fun s' intervalSeconds => onVisibilityChange intervalSeconds s')
                (listeners s)
                (State (page s) (pollingInterval s) (live s) (listeners s)
                       nowHidden (nextTimer s))
  | Fire id =>
      if existsb (fun t => Nat.eqb (fst t) id) (live s) then check s else s
  end.

Definition pollRun (events : list pollEvent) (s : state) : state :=
  fold_left (fun s' e => pollStep e s') events s.

End WithServer.

(** At most one interval runs; it is the one [pollingInterval] holds, and
    it runs only once a listener is registered. *)
Definition tidy (s : state) : Prop :=
  live s = [] \/
  exists id delay,
    pollingInterval s = Some id /\ live s = [(id, delay)] /\ listeners s <> [].

End Polling.

(** ** The login form *)

Module Login.
Import Admin.

(** The admin browser together with the credentials posted to
    [/api/auth/login], oldest first; that request carries no token. *)
Record session : Type := Session {
  browser : Admin.browser;
  logins : list (string * string)
}.

Definition LOGIN_FAILED : string := "Login failed. Check credentials.".

(** [localStorage.setItem("accessToken", value)]: the value is stored as
    the string it converts to. *)
Definition setToken (value : jsval) (st : Admin.browser) : Admin.browser :=
  Browser (Some (toString value)) (location st) (alerts st) (requests st)
          (onSuccessCalls st).

(** The [submit] handler of [#loginForm]; [answer] is what the request
    settles to. *)
Definition submitLogin (userEmail userPassword : string) (answer : adminOutcome)
    (s : session) : session :=
  let posted := (logins s ++ [(userEmail, userPassword)])%list in
  let failed := Session (alert LOGIN_FAILED (browser s)) posted in
  match answer with
  | AdminRejected _ => failed
  | AdminResponded response =>
      if negb (ok (resp response)) then failed
      else
        match body (resp response) ≫= (fun data => get_prop data "access_token") with
        | Ok access_token =>
            Session (redirect "policies.html" (setToken access_token (browser s)))
                    posted
        | Throw _ => failed
        end
  end.

End Login.

(** ** Grouping policies by section *)

Module Grouping.
Import Policies.

(** What [getApprovedPolicies()] returns when its request is the [n]-th
    of the page. *)
Definition approvedPolicies (api : server) (n : nat) : list policy :=
  match apiRequest_settle (api n (GET APPROVED)) ≫= mapPolicies with
  | Ok mappedPolicies => mappedPolicies
  | Throw _ => []
  end.

(** The object [bySection]: its own keys, in the order of their creation,
    each with its array. *)
Definition groups : Type := list (string * list policy).

Definition owns (key : string) (bySection : groups) : bool :=
  existsb (fun g => String.eqb (fst g) key) bySection.

(** The body of [forEach]: [bySection[section]] of a key the object does
    not own is [undefined], unless [Object.prototype] answers for it; what
    it answers is truthy and has no [push]. *)
Definition file (bySection : groups) (p : policy) : result groups :=
  let key := sectionKeyOf p in
  if owns key bySection then
    Ok (map (fun g : string * list policy =>
               if String.eqb (fst g) key then (fst g, (snd g ++ [p])%list) else g)
            bySection)
  else if existsb (String.eqb key) prototypeKeys then
    Throw (TypeError "bySection[section].push is not a function")
  else Ok (bySection ++ [(key, [p])])%list.

Fixpoint groupAll (bySection : groups) (policies : list policy) : result groups :=
  match policies with
  | [] => Ok bySection
  | p :: rest => m ← file bySection p; groupAll m rest
  end.

(** [keys.sort()]: strings are compared by their code units; the sort
    moves [key] behind the keys it compares greater than. *)
Fixpoint insertKey (key : string) (sorted : list string) : list string :=
  match sorted with
  | [] => [key]
  | y :: rest =>
      if codeUnitCompare key y >? 0 then y :: insertKey key rest
      else key :: y :: rest
  end.

(** [Object.keys(bySection).sort()]; the keys are distinct, so the result
    does not depend on the order in which [Object.keys] lists them. *)
Definition sortedKeys (bySection : groups) : list string :=
  foldr insertKey [] (map fst bySection).

(** [bySection[section]] for a key of the object. *)
Definition groupAt (key : string) (bySection : groups) : list policy :=
  match find (fun g => String.eqb (fst g) key) bySection with
  | Some g => snd g
  | None => []
  end.

(** The policies filed under [key], in the order of the list. *)
Definition filedAt (key : string) (policies : list policy) : list policy :=
  List.filter (fun p => String.eqb (sectionKeyOf p) key) policies.

(** What [bySection] holds once the policies [done] are filed: distinct
    keys, none of them a name of [Object.prototype], each with the policies
    filed under it, and a key for every policy. *)
Definition holds (done : list policy) (bySection : groups) : Prop :=
  NoDup (map fst bySection) /\
  (forall key, groupAt key bySection = filedAt key done) /\
  (forall key, In key (map fst bySection) <-> filedAt key done <> []) /\
  Forall (fun key => existsb (String.eqb key) prototypeKeys = false)
         (map fst bySection).

(** A policy whose section is a name [Object.prototype] answers for. *)
Definition misfiled (p : policy) : bool :=
  existsb (String.eqb (sectionKeyOf p)) prototypeKeys.

(** Keys in ascending order of their code units. *)
Definition ascending (keys : list string) : Prop :=
  StronglySorted (fun a b => codeUnitCompare a b <= 0) keys.

End Grouping.

(** ** The policies of the suggestion form *)

Module Dropdown.
Import Policies Grouping.

(** The [select] of the suggestion form, each option with its value and
    its text ([None]: the document has no [#policySelect]), and the
    requests sent. *)
Record selectPage : Type := SelectPage {
  options : option (list (string * string));
  requests : list request
}.

Definition SELECT : string * string := ("", "Select").
Definition NONE_AVAILABLE : string * string := ("", "No policies available").

(** The option of a policy: its value is [policy.policyId], its text is
    built from [policy.policyId || policy.id] and the name. *)
Definition optionOf (sectionName : string) (p : policy) : string * string :=
  (toString (policy_policyId p),
   (toString (polledId p) ++ " - " ++
    toString (or_else (or_else (policy_name p) (policy_policyName p))
                      (VStr "Untitled")) ++
    " (" ++ sectionName ++ ")")%string).

(** The options added for the groups, section after section. *)
Definition groupedOptions (bySection : groups) : list (string * string) :=
  flat_map (fun section => map (optionOf (getSectionName section))
                               (groupAt section bySection))
           (sortedKeys bySection).

(** The option of a policy under the name of its own section. *)
Definition optionOfPolicy (p : policy) : string * string :=
  optionOf (getSectionName (sectionKeyOf p)) p.

(** [populateSuggestionsDropdown]: what it returns or throws, and the page
    it leaves. *)
Definition populateSuggestionsDropdown (api : server) (st : selectPage)
  : result unit * selectPage :=
  match options st with
  | None => (Ok tt, st)
  | Some _ =>
      let policies := approvedPolicies api (length (requests st)) in
      let sent := (requests st ++ [GET APPROVED])%list in
      if Nat.eqb (length policies) 0 then
        (Ok tt, SelectPage (Some [SELECT; NONE_AVAILABLE]) sent)
      else
        match groupAll [] policies with
        | Ok bySection =>
            (Ok tt, SelectPage (Some (SELECT :: groupedOptions bySection)) sent)
        | Throw e => (Throw e, SelectPage (Some [SELECT]) sent)
        end
  end.

End Dropdown.

(** ** The page of one policy *)

Module Detail.
Import Policies Grouping.

(** The fields of [mappedPolicy] that [loadPolicyDetail] and
    [updatePolicySidebar] read. *)
Record detail : Type := Detail {
  detail_policyId : jsval;
  detail_name : jsval;
  detail_content : jsval;
  detail_updatedAt : jsval
}.

(** What the sidebar shows: what the document came with, the note that
    there are no other policies, or sections, each with its title and its
    links (address and text). *)
Inductive sidebarContent : Type :=
| AsServed
| NoOthers
| Sections (sections : list (string * list (string * string))).

(** The detail page: the [id] of the query string, whether the document
    has the container and whether it shows "Policy not found", what was
    written into the four elements ([None]: the document has no such
    element), the sidebar ([None]: no such element), the requests sent. *)
Record detailPage : Type := DetailPage {
  query_id : option string;
  hasContainer : bool;
  notFound : bool;
  policyNumber : option string;
  policyTitle : option string;
  policyContent : option string;
  policyUpdated : option string;
  sidebar : option sidebarContent;
  requests : list request
}.

Definition showNotFound (st : detailPage) : detailPage :=
  DetailPage (query_id st) (hasContainer st) true (policyNumber st) (policyTitle st)
             (policyContent st) (policyUpdated st) (sidebar st) (requests st).

Definition ask (r : request) (st : detailPage) : detailPage :=
  DetailPage (query_id st) (hasContainer st) (notFound st) (policyNumber st)
             (policyTitle st) (policyContent st) (policyUpdated st) (sidebar st)
             (requests st ++ [r])%list.

Definition setSidebar (content : sidebarContent) (st : detailPage) : detailPage :=
  DetailPage (query_id st) (hasContainer st) (notFound st) (policyNumber st)
             (policyTitle st) (policyContent st) (policyUpdated st) (Some content)
             (requests st).

(** The object literal of [loadPolicyDetail]: reading a property of
    [null] throws. *)
Definition mapDetail (policy : json) : result detail :=
  _ ← get_prop policy "id";
  policyId ← get_prop policy "policy_id";
  name ← get_prop policy "policy_name";
  _ ← get_prop policy "section";
  content ← get_prop policy "policy_content";
  _ ← get_prop policy "status";
  updatedAt ← get_prop policy "updated_at";
  mret (Detail policyId name content updatedAt).

(** A policy as the comparator of [sortItemsByPolicyNumber] sees it. *)
Definition policyItem (p : policy) : item :=
  Item (policy_id p) (policy_policyId p) (policy_name p) (policy_section p)
       VUndefined.

(** The link of a policy in the sidebar: the address is built from
    [policy.policyId], the text from [policy.policyId || policy.id]. *)
Definition linkOf (p : policy) : string * string :=
  (("/public/policy-detail.html?id=" ++ toString (policy_policyId p))%string,
   (toString (polledId p) ++ " - " ++
    toString (or_else (or_else (policy_name p) (policy_policyName p))
                      (VStr "Untitled")))%string).

(** [policyId !== currentPolicy.policyId] *)
Definition isOther (current : detail) (p : policy) : bool :=
  negb (bool_decide (policy_policyId p = detail_policyId current)).

Section WithServer.

Variable localeCompare : string -> string -> Z.
(** [new Date(value).toLocaleDateString('en-US', ...)] *)
Variable toLocaleDateString : jsval -> string.
Variable api : server.

(** [sortItemsByPolicyNumber] on policies. *)
Definition sortPolicies (policies : list policy) : result (list policy) :=
  Sorter.arraySort
    (fun a b => Sorter.comparator localeCompare (policyItem a) (policyItem b))
    policies.

(** The loop over the sorted keys of [updatePolicySidebar]. *)
Definition sidebarSections (bySection : groups)
  : result (list (string * list (string * string))) :=
  mapM (fun section =>
          sortedPolicies ← sortPolicies (groupAt section bySection);
          mret (getSectionName section, map linkOf sortedPolicies))
       (sortedKeys bySection).

(** [updatePolicySidebar(currentPolicy)]: what it returns or throws, and
    the page it leaves. *)
Definition updatePolicySidebar (current : detail) (st : detailPage)
  : result unit * detailPage :=
  match sidebar st with
  | None => (Ok tt, st)
  | Some _ =>
      let approved := approvedPolicies api (length (requests st)) in
      let st1 := ask (GET APPROVED) st in
      let otherPolicies := List.filter (isOther current) approved in
      if Nat.eqb (length otherPolicies) 0 then (Ok tt, setSidebar NoOthers st1)
      else
        match groupAll [] otherPolicies ≫= sidebarSections with
        | Ok sections => (Ok tt, setSidebar (Sections sections) st1)
        | Throw e => (Throw e, st1)
        end
  end.

(** The four assignments of [loadPolicyDetail]; an element the document
    does not have is skipped, and so is the date of a policy without
    [updated_at]. *)
Definition fill (mappedPolicy : detail) (st : detailPage) : detailPage :=
  DetailPage (query_id st) (hasContainer st) (notFound st)
    (match policyNumber st with
     | Some _ => Some ("Policy # " ++ toString (detail_policyId mappedPolicy))%string
     | None => None
     end)
    (match policyTitle st with
     | Some _ => Some (toString (or_else (detail_name mappedPolicy) (VStr "Untitled")))
     | None => None
     end)
    (match policyContent st with
     | Some _ =>
         Some ("<p>" ++ toString (or_else (detail_content mappedPolicy)
                                          (VStr "No content available.")) ++ "</p>")%string
     | None => None
     end)
    (match policyUpdated st with
     | Some old =>
         if truthy (detail_updatedAt mappedPolicy) then
           Some ("Last Updated: " ++
                 toLocaleDateString (detail_updatedAt mappedPolicy))%string
         else Some old
     | None => None
     end)
    (sidebar st) (requests st).

Definition detailRequest (policyId : string) : request :=
  GET ("/api/policies/" ++ policyId)%string.

(** [loadPolicyDetail] *)
Definition loadPolicyDetail (st : detailPage) : detailPage :=
  if negb (hasContainer st) then st
  else
    match query_id st with
    | None => showNotFound st
    | Some policyId =>
        if String.eqb policyId "" then showNotFound st
        else
          let st1 := ask (detailRequest policyId) st in
          match apiRequest_settle (api (length (requests st)) (detailRequest policyId))
                ≫= mapDetail with
          | Throw _ => showNotFound st1
          | Ok mappedPolicy =>
              match updatePolicySidebar mappedPolicy (fill mappedPolicy st1) with
              | (Ok _, st2) => st2
              | (Throw _, st2) => showNotFound st2
              end
          end
    end.

End WithServer.



End Detail.

(** ** The profile panel *)

Module Profile.
Import Admin AdminRequests.

(** The profile panel: whether it carries the class [hidden] ([None]: the
    document has no [#profilePanel]), the texts of [#profileName] and
    [#profileEmail] ([None]: no such element), and the browser. *)
Record panel : Type := Panel {
  panelHidden : option bool;
  profileName : option string;
  profileEmail : option string;
  browser : Admin.browser
}.

(** [if (el) el.textContent = text] *)
Definition write (el : option string) (text : string) : option string :=
  match el with
  | Some _ => Some text
  | None => None
  end.

(** [loadProfileData]; [me] is what its request settles to. *)
Definition loadProfileData (me : adminOutcome) (st : panel) : panel :=
  let token := accessToken (browser st) in
  if noToken token then st
  else
    let asked := send (meRequest token) (browser st) in
    let defaults := Panel (panelHidden st) (write (profileName st) "-")
                          (write (profileEmail st) "-") asked in
    match me with
    | AdminRejected _ => defaults
    | AdminResponded response =>
        if negb (ok (resp response)) then defaults
        else
          match body (resp response) ≫= (fun userData =>
                  name ← get_prop userData "name";
                  email ← get_prop userData "email";
                  mret (name, email)) with
          | Ok (name, email) =>
              Panel (panelHidden st)
                    (write (profileName st) (toString (or_else name (VStr "-"))))
                    (write (profileEmail st) (toString (or_else email (VStr "-"))))
                    asked
          | Throw _ => defaults
          end
    end.

(** [toggleProfilePanel] *)
Definition toggleProfilePanel (me : adminOutcome) (st : panel) : panel :=
  match panelHidden st with
  | None => st
  | Some wasHidden =>
      let toggled := Panel (Some (negb wasHidden)) (profileName st)
                           (profileEmail st) (browser st) in
      if wasHidden then loadProfileData me toggled else toggled
  end.

(** [closeProfilePanel] *)
Definition closeProfilePanel (st : panel) : panel :=
  match panelHidden st with
  | None => st
  | Some _ => Panel (Some true) (profileName st) (profileEmail st) (browser st)
  end.

End Profile.

(** * Properties *)

(** ** Properties of the string operations *)

Module StringFacts.

Lemma append_cons c s t : (String c s ++ t)%string = String c (s ++ t)%string.
Proof. reflexivity. Qed.

Lemma append_nil t : ("" ++ t)%string = t.
Proof. reflexivity. Qed.

Lemma prefix_spec q : forall s,
  String.prefix q s = true <-> exists post, s = (q ++ post)%string.
Proof.
  induction q as [| a q IH]; intros s.
  - destruct s; cbn; split; eauto.
  - destruct s as [| b s]; cbn.
    + split; [ discriminate | intros [post H]; discriminate ].
    + destruct (ascii_dec a b) as [-> | Hne].
      * rewrite IH. split; intros [post H]; exists post;
          rewrite append_cons in *; congruence.
      * split; [ discriminate | ].
        intros [post H]. rewrite append_cons in H. congruence.
Qed.

(** [includes] decides whether [q] occurs in [s]. *)
Lemma includes_spec s : forall q,
  includes s q = true <-> exists pre post, s = (pre ++ q ++ post)%string.
Proof.
  induction s as [| c s IH]; intros q; cbn [includes];
    rewrite orb_true_iff, prefix_spec.
  - split.
    + intros [[post H] | H]; [ | discriminate ]. exists "", post. exact H.
    + intros (pre & post & H). left.
      destruct pre; [ exists post; exact H | discriminate ].
  - rewrite IH. split.
    + intros [[post H] | (pre & post & H)].
      * exists "", post. exact H.
      * exists (String c pre), post. rewrite append_cons. now rewrite H.
    + intros ([| c' pre] & post & H).
      * left. exists post. exact H.
      * right. exists pre, post. rewrite append_cons in H. congruence.
Qed.


End StringFacts.

(** ** Properties of the sorter *)

Module SorterFacts.
Import Sorter.
Section WithLocale.

Variable localeCompare : string -> string -> Z.

Lemma length_padTo n l : (length l <= n)%nat -> length (padTo n l) = n.
Proof. intros H. unfold padTo. rewrite length_app, length_replicate. lia. Qed.

Lemma lookup_padTo n l i :
  (length l <= n)%nat -> (i < n)%nat -> padTo n l !! i = Some (partAt l i).
Proof.
  intros Hl Hi. unfold padTo, partAt.
  destruct (Nat.lt_ge_cases i (length l)) as [Hlt | Hge].
  - rewrite lookup_app_l by exact Hlt.
    destruct (lookup_lt_is_Some_2 l i Hlt) as [x Hx]. now rewrite Hx.
  - rewrite lookup_app_r by exact Hge.
    rewrite (lookup_ge_None_2 l i) by exact Hge.
    rewrite lookup_replicate_2 by lia. reflexivity.
Qed.

(** The loop of the code walks the two padded sequences in step. *)
Lemma compareParts_segmentwise n partsA partsB :
  (length partsA <= n)%nat -> (length partsB <= n)%nat ->
  forall remaining i, (i + remaining = n)%nat ->
    compareParts remaining i partsA partsB =
    outcome_of (segmentwise (drop i (padTo n partsA)) (drop i (padTo n partsB))).
Proof.
  intros HA HB. induction remaining as [| r IH]; intros i Hi.
  - simpl. rewrite drop_ge by (rewrite length_padTo; lia). reflexivity.
  - rewrite (drop_S _ (partAt partsA i) i) by (apply lookup_padTo; lia).
    rewrite (drop_S _ (partAt partsB i) i) by (apply lookup_padTo; lia).
    cbn [compareParts segmentwise].
    destruct (Z.compare_spec (partAt partsA i) (partAt partsB i)) as [E | L | G].
    + rewrite E, Z.ltb_irrefl, Z.gtb_ltb, Z.ltb_irrefl.
      apply IH. lia.
    + apply Z.ltb_lt in L. now rewrite L.
    + rewrite (proj2 (Z.ltb_ge _ _)) by lia.
      rewrite Z.gtb_ltb, (proj2 (Z.ltb_lt _ _)) by lia.
      reflexivity.
Qed.

Lemma segments_parsePart s : map parsePart (split_dot s) = segments s.
Proof.
  unfold segments. apply map_ext. intros seg. unfold parsePart.
  now destruct (parseInt seg).
Qed.

(** The comparator of the code computes the order of the specification. *)
Lemma comparePolicyIds_spec a b :
  comparePolicyIds localeCompare a b = spec_compare localeCompare a b.
Proof.
  unfold comparePolicyIds, spec_compare. rewrite !segments_parsePart.
  set (n := Nat.max _ _).
  rewrite (compareParts_segmentwise n) by (subst n; lia).
  rewrite !drop_0. now destruct (segmentwise _ _).
Qed.



(** *** The order is a total preorder when [localeCompare] is one *)

Lemma segmentwise_antisym a : forall b,
  segmentwise b a = CompOpp (segmentwise a b).
Proof.
  induction a as [| x a IH]; intros [| y b]; try reflexivity.
  cbn [segmentwise]. rewrite (Z.compare_antisym x y).
  destruct (x ?= y); cbn; auto.
Qed.

Lemma segmentwise_refl a : segmentwise a a = Eq.
Proof. induction a as [| x a IH]; cbn; [ | rewrite Z.compare_refl ]; auto. Qed.

Lemma segmentwise_eq a : forall b,
  length a = length b -> segmentwise a b = Eq -> a = b.
Proof.
  induction a as [| x a IH]; intros [| y b] Hlen H; try discriminate; auto.
  cbn [segmentwise] in H. destruct (Z.compare_spec x y); try discriminate.
  subst. f_equal. apply IH; auto.
Qed.

Lemma segmentwise_trans a : forall b c,
  length a = length b -> length b = length c ->
  segmentwise a b = Lt -> segmentwise b c = Lt -> segmentwise a c = Lt.
Proof.
  induction a as [| x a IH]; intros [| y b] [| z c] Hab Hbc H1 H2;
    try discriminate.
  cbn [segmentwise] in *.
  destruct (Z.compare_spec x y); try discriminate;
    destruct (Z.compare_spec y z); try discriminate; subst.
  - rewrite Z.compare_refl. apply (IH b); auto.
  - now rewrite (proj2 (Z.compare_lt_iff _ _)).
  - now rewrite (proj2 (Z.compare_lt_iff _ _)).
  - rewrite (proj2 (Z.compare_lt_iff x z)) by lia. reflexivity.
Qed.

Lemma segmentwise_app a : forall b z,
  length a = length b ->
  segmentwise (a ++ z)%list (b ++ z)%list = segmentwise a b.
Proof.
  induction a as [| x a IH]; intros [| y b] z Hlen; try discriminate.
  - apply segmentwise_refl.
  - cbn [app segmentwise]. rewrite IH by (simpl in Hlen; lia). reflexivity.
Qed.

Lemma padTo_more m n l :
  (length l <= m)%nat -> (m <= n)%nat ->
  padTo n l = (padTo m l ++ replicate (n - m) 0)%list.
Proof.
  intros Hl Hm. unfold padTo. rewrite <- app_assoc. f_equal.
  rewrite <- replicate_add. f_equal. lia.
Qed.

Lemma numeric_more m n a b :
  (length (segments a) <= m)%nat -> (length (segments b) <= m)%nat ->
  (m <= n)%nat -> numeric n a b = numeric m a b.
Proof.
  intros Ha Hb Hm. unfold numeric.
  rewrite (padTo_more m n (segments a)), (padTo_more m n (segments b)) by lia.
  apply segmentwise_app. rewrite !length_padTo; lia.
Qed.

Lemma spec_compare_at n a b :
  (length (segments a) <= n)%nat -> (length (segments b) <= n)%nat ->
  spec_compare localeCompare a b =
  match numeric n a b with
  | Lt => -1
  | Gt => 1
  | Eq => localeCompare a b
  end.
Proof.
  intros Ha Hb. unfold spec_compare.
  rewrite (numeric_more (Nat.max (length (segments a)) (length (segments b))) n)
    by lia.
  reflexivity.
Qed.

Hypothesis localeCompare_total :
  forall a b, 0 < localeCompare a b -> localeCompare b a <= 0.
Hypothesis localeCompare_trans :
  forall a b c,
    localeCompare a b <= 0 -> localeCompare b c <= 0 -> localeCompare a c <= 0.

Lemma spec_compare_total a b :
  0 < spec_compare localeCompare a b -> spec_compare localeCompare b a <= 0.
Proof.
  set (n := Nat.max (length (segments a)) (length (segments b))).
  rewrite (spec_compare_at n a b), (spec_compare_at n b a) by (subst n; lia).
  unfold numeric. rewrite (segmentwise_antisym (padTo n (segments a))).
  destruct (segmentwise _ _); cbn; auto; lia.
Qed.

Lemma spec_compare_trans a b c :
  spec_compare localeCompare a b <= 0 -> spec_compare localeCompare b c <= 0 ->
  spec_compare localeCompare a c <= 0.
Proof.
  set (n := Nat.max (length (segments a))
              (Nat.max (length (segments b)) (length (segments c)))).
  rewrite (spec_compare_at n a b), (spec_compare_at n b c),
    (spec_compare_at n a c) by (subst n; lia).
  unfold numeric.
  assert (La : length (padTo n (segments a)) = n) by (apply length_padTo; subst n; lia).
  assert (Lb : length (padTo n (segments b)) = n) by (apply length_padTo; subst n; lia).
  assert (Lc : length (padTo n (segments c)) = n) by (apply length_padTo; subst n; lia).
  destruct (segmentwise (padTo n (segments a)) (padTo n (segments b))) eqn:Eab;
    destruct (segmentwise (padTo n (segments b)) (padTo n (segments c))) eqn:Ebc;
    try lia.
  - apply segmentwise_eq in Eab, Ebc; try congruence.
    rewrite Eab, Ebc, segmentwise_refl. apply localeCompare_trans.
  - apply segmentwise_eq in Eab; try congruence. rewrite Eab, Ebc. lia.
  - apply segmentwise_eq in Ebc; try congruence. rewrite <- Ebc, Eab. lia.
  - rewrite (segmentwise_trans _ _ _ (eq_trans La (eq_sym Lb))
               (eq_trans Lb (eq_sym Lc)) Eab Ebc). lia.
Qed.

(** *** The sort *)

Section Sort.
Context {A : Type} (cmp : A -> A -> result Z) (P : A -> Prop) (ord : A -> A -> Z).
Hypothesis cmp_ord : forall a b, P a -> P b -> cmp a b = Ok (ord a b).
Hypothesis ord_total : forall a b, 0 < ord a b -> ord b a <= 0.
Hypothesis ord_trans : forall a b c, ord a b <= 0 -> ord b c <= 0 -> ord a c <= 0.

Lemma insertSorted_ok x : forall sorted,
  P x -> Forall P sorted -> StronglySorted (fun a b => ord a b <= 0) sorted ->
  exists r, insertSorted cmp x sorted = Ok r /\ Permutation (x :: sorted) r /\
            StronglySorted (fun a b => ord a b <= 0) r.
Proof.
  induction sorted as [| y rest IH]; intros Px HP Hs.
  - exists [x]. repeat split; auto. repeat constructor.
  - inversion HP as [| ? ? Py HPrest]; subst.
    inversion Hs as [| ? ? Hrest Hy]; subst.
    cbn [insertSorted]. rewrite (cmp_ord x y Px Py). cbn.
    destruct (Z.gtb_spec (ord x y) 0) as [Hgt | Hle].
    + destruct (IH Px HPrest Hrest) as (r & -> & Hperm & Hr). cbn.
      exists (y :: r). repeat split.
      * rewrite <- Hperm. apply perm_swap.
      * constructor; auto.
        eapply Permutation_Forall; [ exact Hperm | ].
        constructor; [ apply ord_total; lia | exact Hy ].
    + exists (x :: y :: rest). repeat split; auto.
      constructor; auto. constructor; auto.
      eapply Forall_impl; [ exact Hy | ]. cbn. intros z Hz.
      now apply (ord_trans x y z).
Qed.

Lemma arraySort_ok : forall l,
  Forall P l ->
  exists r, arraySort cmp l = Ok r /\ Permutation l r /\
            StronglySorted (fun a b => ord a b <= 0) r.
Proof.
  induction l as [| x l IH]; intros HP.
  - exists []. repeat split; auto. constructor.
  - inversion HP as [| ? ? Px HPl]; subst.
    destruct (IH HPl) as (s & Hs & Hperm & Hsorted).
    cbn [arraySort]. rewrite Hs. cbn.
    destruct (insertSorted_ok x s Px) as (r & Hr & Hperm' & Hsorted'); auto.
    + eapply Permutation_Forall; eauto.
    + exists r. repeat split; auto.
      rewrite <- Hperm'. now constructor.
Qed.

End Sort.


End WithLocale.

Lemma codeUnitCompare_total a b :
  0 < codeUnitCompare a b -> codeUnitCompare b a <= 0.
Proof.
  unfold codeUnitCompare.
  pose proof (String_as_OT.cmp_antisym b a) as H.
  unfold String_as_OT.cmp in H. rewrite H.
  destruct (String.compare a b); cbn; lia.
Qed.

Lemma codeUnitCompare_trans a b c :
  codeUnitCompare a b <= 0 -> codeUnitCompare b c <= 0 ->
  codeUnitCompare a c <= 0.
Proof.
  unfold codeUnitCompare.
  destruct (String.compare a b) eqn:Eab; try lia;
    destruct (String.compare b c) eqn:Ebc; try lia; intros _ _.
  - apply String_as_OT.cmp_eq in Eab. subst. now rewrite Ebc.
  - apply String_as_OT.cmp_eq in Eab. subst. now rewrite Ebc.
  - apply String_as_OT.cmp_eq in Ebc. subst. now rewrite Eab.
  - apply String_as_OT.cmp_lt in Eab, Ebc.
    assert (String.compare a c = Lt) as ->; [ | lia ].
    apply String_as_OT.cmp_lt. eapply String_as_OT.lt_trans; eauto.
Qed.


End SorterFacts.

(** ** Properties of the search filter *)

Module FilterFacts.
Import Policies SearchSpec Examples StringFacts.





Lemma filter_all {A} (f : A -> bool) l :
  (forall x, f x = true) -> List.filter f l = l.
Proof.
  intros H. induction l as [| x l IH]; cbn; [ reflexivity | ].
  now rewrite H, IH.
Qed.





End FilterFacts.

(** ** Properties of the API client *)

Module ApiFacts.

Lemma ok_true r : is2xx r -> ok r = true.
Proof. unfold is2xx, ok. intros H. apply andb_true_iff. split; apply Z.leb_le; lia. Qed.

Lemma ok_false r : ~ is2xx r -> ok r = false.
Proof.
  unfold is2xx, ok. intros H. apply andb_false_iff.
  destruct (Z.leb_spec 200 (status r)); [ right | left; reflexivity ].
  apply Z.leb_gt. lia.
Qed.




End ApiFacts.

(** ** Toggling a section touches nothing else *)

Module ToggleFacts.
Import Policies.

Lemma indexOf_None sectionId l :
  indexOf sectionId l = None -> sectionId ∉ l.
Proof.
  induction l as [| x l IH]; cbn; intros H.
  - apply not_elem_of_nil.
  - destruct (Z.eqb_spec x sectionId) as [-> | Hne]; [ discriminate | ].
    destruct (indexOf sectionId l); [ discriminate | ].
    apply not_elem_of_cons. split; [ congruence | auto ].
Qed.

Lemma indexOf_Some sectionId l index :
  indexOf sectionId l = Some index -> l !! index = Some sectionId.
Proof.
  revert index. induction l as [| x l IH]; cbn; intros index H; [ discriminate | ].
  destruct (Z.eqb_spec x sectionId) as [-> | Hne].
  - injection H as <-. reflexivity.
  - destruct (indexOf sectionId l) as [i |]; [ | discriminate ].
    injection H as <-. cbn. now apply IH.
Qed.








End ToggleFacts.

(** ** The suggestion form *)

Module SuggestionFacts.
Import Suggestions.

(** C9: when the entered email does not contain "@ualberta.ca", the submit
    handler shows exactly one validation alert, sends no request, and
    leaves the three controls and the success message as they were. *)
Theorem submit_rejects_other_email (api : server) (st : form) :
  (~ exists pre post, emailInput st = (pre ++ "@ualberta.ca" ++ post)%string) ->
  requests (submit api st) = requests st /\
  (exists message,
     alerts (submit api st) = (alerts st ++ [message])%list /\
     In message [ENTER_EMAIL; SELECT_POLICY; ENTER_SUGGESTION; VALID_EMAIL]) /\
  policySelect (submit api st) = policySelect st /\
  suggestionText (submit api st) = suggestionText st /\
  emailInput (submit api st) = emailInput st /\
  successShown (submit api st) = successShown st.
Proof.
  intros Hemail.
  assert (Hinc : includes (emailInput st) "@ualberta.ca" = false).
  { destruct (includes (emailInput st) "@ualberta.ca") eqn:E; [ | reflexivity ].
    elim Hemail. now apply StringFacts.includes_spec. }
  unfold submit. rewrite Hinc. cbn [negb].
  destruct (String.eqb (trim (emailInput st)) "");
    [ | destruct (String.eqb (policySelect st) "");
        [ | destruct (String.eqb (trim (suggestionText st)) "") ] ];
    cbn; repeat split; eexists; (split; [ reflexivity | cbn; tauto ]).
Qed.

Lemma submit_rejects_other_email_witness :
  requests (submit (fun _ _ => Rejected (TypeError "Failed to fetch"))
              (Form "1.1.1" "Please clarify" "student@gmail.com" [] None false [])) = [] /\
  alerts (submit (fun _ _ => Rejected (TypeError "Failed to fetch"))
            (Form "1.1.1" "Please clarify" "student@gmail.com" [] None false [])) =
  [VALID_EMAIL].
Proof.
  split; [ | reflexivity ].
  refine (proj1 (submit_rejects_other_email _ _ _)).
  intros H. apply (proj2 (StringFacts.includes_spec _ _)) in H.
  vm_compute in H. discriminate H.
Defined.






End SuggestionFacts.

(** ** Session handling of the admin actions *)

Module AdminFacts.
Import Admin Examples.










End AdminFacts.

(** ** The renderer and the poller *)

Module PageFacts.
Import Policies Examples.
Local Open Scope list_scope.

Section WithServer.

Variable localeCompare : string -> string -> Z.
Variable api : server.

Lemma after_nil st : after st [] = st.
Proof. unfold after, with_requests. rewrite app_nil_r. now destruct st. Qed.

Lemma after_after st a b : after (after st a) b = after st (a ++ b).
Proof. unfold after, with_requests. cbn. now rewrite app_assoc. Qed.

Lemma apiRequest_after endpoint st :
  snd (apiRequest api endpoint st) = after st [GET endpoint].
Proof. reflexivity. Qed.

Lemma getApprovedPolicies_after sectionName st :
  snd (getApprovedPolicies api sectionName st) =
  after st [GET (approvedEndpoint sectionName)].
Proof. reflexivity. Qed.

Lemma fetchSection_after section st :
  snd (fetchSection localeCompare api section st) = after st [sectionRequest section].
Proof. reflexivity. Qed.

Lemma fetchSections_after secs : forall st,
  snd (fetchSections localeCompare api secs st) = after st (map sectionRequest secs).
Proof.
  induction secs as [| section rest IH]; intros st.
  - cbn. now rewrite after_nil.
  - cbn [fetchSections]. unfold mbind, M_bind.
    destruct (fetchSection localeCompare api section st) as [[failed sw] st1] eqn:E1.
    pose proof (fetchSection_after section st) as H1. rewrite E1 in H1. cbn in H1.
    destruct (fetchSections localeCompare api rest st1) as [[failedRest sws] st2] eqn:E2.
    pose proof (IH st1) as H2. rewrite E2 in H2. cbn in H2.
    cbn. rewrite H2, H1, after_after. reflexivity.
Qed.

(** What [collectSections] does, step by step. *)
Lemma collectSections_unfold st :
  collectSections localeCompare api st =
  let primary := fst (fetchSections localeCompare api sections st) in
  let st1 := after st (map sectionRequest sections) in
  if fst primary then
    (match fallbackSections localeCompare (searchTerm st)
             (fst (getApprovedPolicies api None st1)) with
     | Ok grouped => grouped
     | Throw _ => snd primary
     end, after st (map sectionRequest sections ++ [GET APPROVED]))
  else (snd primary, st1).
Proof.
  unfold collectSections, mbind, M_bind.
  pose proof (fetchSections_after sections st) as H.
  destruct (fetchSections localeCompare api sections st) as [[useFallback sws] st1].
  cbn [snd] in H. subst st1. cbn [fst snd]. destruct useFallback; [ | reflexivity ].
  pose proof (getApprovedPolicies_after None (after st (map sectionRequest sections))) as H.
  destruct (getApprovedPolicies api None (after st (map sectionRequest sections)))
    as [allPolicies st2].
  cbn [snd] in H. subst st2. unfold gets, mret, M_ret. cbn [fst snd].
  rewrite after_after. reflexivity.
Qed.

(** *** Grouping in the fallback path *)

Lemma extend_nil sw : extend [] sw = sw.
Proof. unfold extend, groupOf. cbn. rewrite app_nil_r. now destruct sw. Qed.

Lemma extend_cons p rest sw : extend rest (extend [p] sw) = extend (p :: rest) sw.
Proof.
  unfold extend, groupOf. cbn [sw_section sw_items List.filter].
  destruct (String.eqb (sec_key (sw_section sw)) (sectionKeyOf p));
    cbn [map app]; rewrite <- app_assoc; reflexivity.
Qed.

Lemma pushPolicy_Ok sectionsMap p m :
  pushPolicy sectionsMap p = Ok m -> m = map (extend [p]) sectionsMap.
Proof.
  unfold pushPolicy. fold (sectionKeyOf p). fold (itemOf p).
  destruct (existsb _ sectionsMap) eqn:E.
  - intros H. injection H as <-. apply map_ext. intros sw.
    unfold extend, groupOf. cbn [List.filter].
    destruct (String.eqb (sec_key (sw_section sw)) (sectionKeyOf p)); cbn.
    + reflexivity.
    + rewrite app_nil_r. now destruct sw.
  - destruct (existsb _ prototypeKeys); [ discriminate | ].
    intros H. injection H as <-.
    induction sectionsMap as [| sw rest IH]; [ reflexivity | ].
    cbn [existsb] in E. apply orb_false_iff in E as [E1 E2].
    cbn [map]. rewrite <- (IH E2). f_equal.
    unfold extend, groupOf. cbn [List.filter]. rewrite E1. cbn.
    rewrite app_nil_r. now destruct sw.
Qed.

Lemma groupBySection_Ok allPolicies : forall sectionsMap m,
  groupBySection sectionsMap allPolicies = Ok m ->
  m = map (extend allPolicies) sectionsMap.
Proof.
  induction allPolicies as [| p rest IH]; intros sectionsMap m H.
  - cbn in H. injection H as <-. symmetry. rewrite <- (map_id sectionsMap) at 2.
    apply map_ext. intros sw. apply extend_nil.
  - cbn [groupBySection] in H.
    destruct (pushPolicy sectionsMap p) as [m1 |] eqn:E; [ | discriminate ].
    apply pushPolicy_Ok in E. subst m1.
    apply IH in H. subst m. rewrite map_map. apply map_ext.
    intros sw. apply extend_cons.
Qed.


Lemma groupOf_In key allPolicies it :
  In it (groupOf key allPolicies) <->
  exists p, In p allPolicies /\ sectionKeyOf p = key /\ it = itemOf p.
Proof.
  unfold groupOf. rewrite in_map_iff. split.
  - intros (p & <- & Hp). apply filter_In in Hp as [Hin Hk].
    apply String.eqb_eq in Hk. eauto.
  - intros (p & Hin & Hk & ->). exists p. split; [ reflexivity | ].
    apply filter_In. split; [ exact Hin | ]. now apply String.eqb_eq.
Qed.

(** The fallback path files every policy of the unfiltered list under the
    key of its own section, then filters and sorts each group. *)
Lemma fallbackSections_Ok q allPolicies grouped :
  fallbackSections localeCompare q allPolicies = Ok grouped ->
  Forall2 (fun section sw =>
             sw_section sw = section /\
             filterAndSort localeCompare q (groupOf (sec_key section) allPolicies) =
             Ok (sw_items sw))
          sections grouped.
Proof.
  unfold fallbackSections. intros H.
  destruct (groupBySection _ allPolicies) as [m |] eqn:E; [ | discriminate ].
  apply groupBySection_Ok in E. subst m.
  cbn [sections map mapM extend sw_section sw_items sec_key app mbind result_bind] in H.
  unfold mbind, result_bind in H. cbn [sw_section sw_items sec_key app] in H.
  repeat match type of H with
         | context [filterAndSort ?l ?q ?items] =>
             destruct (filterAndSort l q items) eqn:?; [ | discriminate ]
         end.
  injection H as <-.
  repeat constructor; assumption.
Qed.

(** *** [renderSections] and [checkForNewPolicies], step by step *)

Lemma renderSections_unfold st children :
  container st = Some children ->
  renderSections localeCompare api st =
  let collected := collectSections localeCompare api (with_container st (Some [])) in
  (tt, with_currentPolicyIds
         (with_container (snd collected)
            (Some (renderChildren (searchTerm st) (openSections st) (fst collected))))
         (recordedIds (fst collected))).
Proof.
  intros Hc. unfold renderSections. rewrite Hc.
  rewrite collectSections_unfold. cbn zeta.
  destruct (fst (fst (fetchSections _ _ _ _))); reflexivity.
Qed.


Lemma checkForNewPolicies_unfold st children :
  container st = Some children ->
  checkForNewPolicies localeCompare api st =
  let allPolicies := fst (getApprovedPolicies api None st) in
  let st1 := after st [GET APPROVED] in
  let newPolicyIds : gset jsval := list_to_set (map polledId allPolicies) in
  if (size (currentPolicyIds st) <? size newPolicyIds)%nat then
    renderSections localeCompare api
      (showNewPoliciesNotification
         (Z.of_nat (size newPolicyIds) - Z.of_nat (size (currentPolicyIds st))) st1)
  else (tt, st1).
Proof.
  intros Hc. unfold checkForNewPolicies. rewrite Hc.
  pose proof (getApprovedPolicies_after None st) as H.
  destruct (getApprovedPolicies api None st) as [allPolicies st1].
  cbn [snd] in H. subst st1. reflexivity.
Qed.




End WithServer.

End PageFacts.

Module PageExamples.
Import Policies Examples PageFacts.
Local Open Scope list_scope.







End PageExamples.

(** * Further properties *)

(** ** The sorter at its edges *)

Module SorterEdgeFacts.
Import Sorter SorterEdge.
Local Open Scope list_scope.

Section WithLocale.

Variable localeCompare : string -> string -> Z.

Lemma comparator_splittable a b :
  splittable a -> splittable b ->
  comparator localeCompare a b =
  Ok (spec_compare localeCompare (identifier a) (identifier b)).
Proof.
  unfold splittable, comparator, identifier. intros Ha Hb.
  destruct (or_else (item_policyId a) (VStr "")); try contradiction.
  destruct (or_else (item_policyId b) (VStr "")); try contradiction.
  cbn [string_method]. rewrite <- SorterFacts.comparePolicyIds_spec. reflexivity.
Qed.

Lemma comparator_Ok a b v :
  comparator localeCompare a b = Ok v -> splittable a /\ splittable b.
Proof.
  unfold splittable, comparator.
  destruct (or_else (item_policyId a) (VStr "")); cbn; try discriminate;
    destruct (or_else (item_policyId b) (VStr "")); cbn; try discriminate; auto.
Qed.

Lemma insertSorted_perm {A} (cmp : A -> A -> result Z) x : forall sorted r,
  insertSorted cmp x sorted = Ok r -> Permutation (x :: sorted) r.
Proof.
  induction sorted as [| y rest IH]; intros r H.
  - injection H as <-. reflexivity.
  - cbn [insertSorted] in H. destruct (cmp x y) as [v |]; [ | discriminate ].
    cbn in H. destruct (v >? 0).
    + destruct (insertSorted cmp x rest) as [r' |]; [ | discriminate ].
      cbn in H. injection H as <-. rewrite <- (IH r' eq_refl). apply perm_swap.
    + injection H as <-. reflexivity.
Qed.

Lemma arraySort_perm {A} (cmp : A -> A -> result Z) : forall l r,
  arraySort cmp l = Ok r -> Permutation l r.
Proof.
  induction l as [| x l IH]; intros r H.
  - injection H as <-. reflexivity.
  - cbn [arraySort] in H. destruct (arraySort cmp l) as [s |]; [ | discriminate ].
    cbn in H. apply insertSorted_perm in H. rewrite <- H. constructor. now apply IH.
Qed.

Lemma insertSorted_total x : forall sorted,
  splittable x -> Forall splittable sorted ->
  exists r, insertSorted (comparator localeCompare) x sorted = Ok r.
Proof.
  induction sorted as [| y rest IH]; intros Hx Hs; [ eexists; reflexivity | ].
  inversion Hs as [| ? ? Hy Hrest]; subst.
  cbn [insertSorted]. rewrite (comparator_splittable x y Hx Hy). cbn.
  destruct (_ >? 0); [ | eexists; reflexivity ].
  destruct (IH Hx Hrest) as [r ->]. eexists. reflexivity.
Qed.

Lemma arraySort_total : forall l,
  Forall splittable l -> exists r, arraySort (comparator localeCompare) l = Ok r.
Proof.
  induction l as [| x l IH]; intros Hl; [ eexists; reflexivity | ].
  inversion Hl as [| ? ? Hx Hl']; subst.
  destruct (IH Hl') as [s Hs]. cbn [arraySort]. rewrite Hs. cbn.
  apply insertSorted_total; [ exact Hx | ].
  eapply Permutation_Forall; [ | exact Hl' ]. now apply arraySort_perm in Hs.
Qed.

Lemma sort_returns_splittable (items sorted : list item) :
  sortItemsByPolicyNumber localeCompare items = Ok sorted ->
  (length items <= 1)%nat \/ Forall splittable items.
Proof.
  unfold sortItemsByPolicyNumber. revert sorted.
  induction items as [| x l IH]; intros sorted H; [ left; cbn; lia | ].
  cbn [arraySort] in H.
  destruct (arraySort (comparator localeCompare) l) as [s |] eqn:Es;
    [ | discriminate ].
  cbn in H. pose proof (arraySort_perm _ _ _ Es) as Hperm.
  destruct s as [| y rest].
  - apply Permutation_sym, Permutation_nil in Hperm. subst l. left. cbn. lia.
  - right. cbn [insertSorted] in H.
    destruct (comparator localeCompare x y) as [v |] eqn:Ec; [ | discriminate ].
    apply comparator_Ok in Ec as [Hx Hy]. constructor; [ exact Hx | ].
    destruct (IH _ eq_refl) as [Hlen | Hall]; [ | exact Hall ].
    destruct l as [| z [| z' l']]; cbn in Hlen; try lia.
    + apply Permutation_nil in Hperm. discriminate.
    + apply Permutation_length_1_inv in Hperm. injection Hperm as -> ->.
      constructor; [ exact Hy | constructor ].
Qed.

(** X1: The sort succeeds exactly on the lists of at most one item, for which
    the comparator is never called, and on the lists whose identifiers can
    all be split; on any other list it ends in the [TypeError] of the
    comparator. *)
Theorem sortItemsByPolicyNumber_throws_exactly (items : list item) :
  (exists sorted, sortItemsByPolicyNumber localeCompare items = Ok sorted) <->
  (length items <= 1)%nat \/ Forall splittable items.
Proof.
  split.
  - intros [sorted H]. exact (sort_returns_splittable items sorted H).
  - unfold sortItemsByPolicyNumber.
    intros [Hlen | Hall]; [ | now apply arraySort_total ].
    destruct items as [| x [| y l]]; cbn in Hlen; try lia; eexists; reflexivity.
Qed.

Hypothesis localeCompare_total :
  forall a b, 0 < localeCompare a b -> localeCompare b a <= 0.
Hypothesis localeCompare_trans :
  forall a b c,
    localeCompare a b <= 0 -> localeCompare b c <= 0 -> localeCompare a c <= 0.

Lemma arraySort_sorted {A} (cmp : A -> A -> result Z) (P : A -> Prop)
    (ord : A -> A -> Z) :
  (forall a b, P a -> P b -> cmp a b = Ok (ord a b)) ->
  forall l, Forall P l -> StronglySorted (fun a b => ord a b <= 0) l ->
            arraySort cmp l = Ok l.
Proof.
  intros Hcmp. induction l as [| x l IH]; intros HP Hs; [ reflexivity | ].
  inversion HP as [| ? ? Px HPl]; subst. inversion Hs as [| ? ? Hl Hx]; subst.
  cbn [arraySort]. rewrite (IH HPl Hl). cbn.
  destruct l as [| y rest]; [ reflexivity | ].
  inversion HPl as [| ? ? Py _]; subst. inversion Hx as [| ? ? Hxy _]; subst.
  cbn [insertSorted]. rewrite (Hcmp x y Px Py). cbn.
  destruct (Z.gtb_spec (ord x y) 0); [ lia | reflexivity ].
Qed.

(** Whenever the sort returns, what it returns is in order. *)
Lemma sort_returns_sorted (items sorted : list item) :
  sortItemsByPolicyNumber localeCompare items = Ok sorted ->
  StronglySorted
    (fun a b => spec_compare localeCompare (identifier a) (identifier b) <= 0)
    sorted.
Proof.
  intros H. unfold sortItemsByPolicyNumber in *.
  pose proof (arraySort_perm _ _ _ H) as Hperm.
  destruct (sort_returns_splittable items _ H) as [Hlen | Hall].
  - apply Permutation_length in Hperm.
    destruct sorted as [| x [| y l]]; cbn in Hperm; try lia;
      repeat constructor.
  - destruct (SorterFacts.arraySort_ok (comparator localeCompare) splittable
                (fun a b => spec_compare localeCompare (identifier a) (identifier b))
                comparator_splittable
                (fun a b => SorterFacts.spec_compare_total localeCompare
                              localeCompare_total _ _)
                (fun a b c => SorterFacts.spec_compare_trans localeCompare
                                localeCompare_trans _ _ _)
                items Hall) as (r & Hr & _ & Hsorted).
    rewrite H in Hr. injection Hr as <-. exact Hsorted.
Qed.

(** X2: Sorting is idempotent: a list the sort has returned is returned
    unchanged when it is sorted again. *)
Theorem sortItemsByPolicyNumber_idempotent (items sorted : list item) :
  sortItemsByPolicyNumber localeCompare items = Ok sorted ->
  sortItemsByPolicyNumber localeCompare sorted = Ok sorted.
Proof.
  intros H. pose proof (sort_returns_sorted items sorted H) as Hsorted.
  unfold sortItemsByPolicyNumber in *.
  pose proof (arraySort_perm _ _ _ H) as Hperm.
  destruct (sort_returns_splittable items _ H) as [Hlen | Hall].
  - apply Permutation_length in Hperm.
    destruct sorted as [| x [| y l]]; cbn in Hperm; try reflexivity. lia.
  - apply (arraySort_sorted _ splittable _ comparator_splittable); [ | exact Hsorted ].
    eapply Permutation_Forall; eauto.
Qed.

Lemma spec_compare_same k : spec_compare localeCompare k k <= 0.
Proof.
  destruct (Z.le_gt_cases (spec_compare localeCompare k k) 0) as [H | H]; [ exact H | ].
  apply (SorterFacts.spec_compare_total localeCompare localeCompare_total). lia.
Qed.

Lemma insertSorted_stable k x : forall sorted r,
  insertSorted (comparator localeCompare) x sorted = Ok r ->
  List.filter (identifiedBy k) r = List.filter (identifiedBy k) (x :: sorted).
Proof.
  induction sorted as [| y rest IH]; intros r H.
  - injection H as <-. reflexivity.
  - cbn [insertSorted] in H.
    destruct (comparator localeCompare x y) as [v |] eqn:Ec; [ | discriminate ].
    cbn in H. destruct (Z.gtb_spec v 0) as [Hgt | Hle].
    + destruct (insertSorted (comparator localeCompare) x rest) as [r' |];
        [ | discriminate ].
      cbn in H. injection H as <-. specialize (IH r' eq_refl).
      pose proof (comparator_Ok _ _ _ Ec) as [Hx Hy].
      rewrite (comparator_splittable x y Hx Hy) in Ec. injection Ec as <-.
      cbn [List.filter] in IH |- *. rewrite IH. unfold identifiedBy.
      destruct (String.eqb_spec (identifier x) k) as [Ex | Nx];
        destruct (String.eqb_spec (identifier y) k) as [Ey | Ny]; try reflexivity.
      rewrite Ex, Ey in Hgt. pose proof (spec_compare_same k). lia.
    + injection H as <-. reflexivity.
Qed.

(** X3: The sort is stable: the items that share an identifier come out in the
    order in which they went in. *)
Theorem sortItemsByPolicyNumber_stable (items sorted : list item) (k : string) :
  sortItemsByPolicyNumber localeCompare items = Ok sorted ->
  List.filter (identifiedBy k) sorted = List.filter (identifiedBy k) items.
Proof.
  unfold sortItemsByPolicyNumber. revert sorted.
  induction items as [| x l IH]; intros sorted H.
  - injection H as <-. reflexivity.
  - cbn [arraySort] in H.
    destruct (arraySort (comparator localeCompare) l) as [s |]; [ | discriminate ].
    cbn in H. apply (insertSorted_stable k) in H. rewrite H.
    cbn [List.filter]. now rewrite (IH s eq_refl).
Qed.

End WithLocale.

Lemma sortItemsByPolicyNumber_throws_exactly_witness :
  (exists sorted,
     sortItemsByPolicyNumber codeUnitCompare
       [ Item VUndefined (VNum 5) VUndefined VUndefined VUndefined ] = Ok sorted) /\
  ~ (exists sorted,
       sortItemsByPolicyNumber codeUnitCompare
         [ Item VUndefined (VStr "1.1") VUndefined VUndefined VUndefined;
           Item VUndefined (VNum 5) VUndefined VUndefined VUndefined ] = Ok sorted).
Proof.
  split.
  - apply sortItemsByPolicyNumber_throws_exactly. left. cbn. lia.
  - intros H. apply sortItemsByPolicyNumber_throws_exactly in H as [H | H].
    + cbn in H. lia.
    + inversion H as [| ? ? _ H']; subst. inversion H' as [| ? ? Hbad _]; subst.
      exact Hbad.
Defined.

Lemma sortItemsByPolicyNumber_idempotent_witness :
  sortItemsByPolicyNumber codeUnitCompare
    [ Item VUndefined (VStr "1.2") VUndefined VUndefined VUndefined;
      Item VUndefined (VStr "1.10") VUndefined VUndefined VUndefined ] =
  Ok [ Item VUndefined (VStr "1.2") VUndefined VUndefined VUndefined;
       Item VUndefined (VStr "1.10") VUndefined VUndefined VUndefined ].
Proof.
  apply (sortItemsByPolicyNumber_idempotent codeUnitCompare
           SorterFacts.codeUnitCompare_total SorterFacts.codeUnitCompare_trans
           [ Item VUndefined (VStr "1.10") VUndefined VUndefined VUndefined;
             Item VUndefined (VStr "1.2") VUndefined VUndefined VUndefined ]).
  vm_compute. reflexivity.
Defined.

Lemma sortItemsByPolicyNumber_stable_witness :
  List.filter (identifiedBy "1.1")
    [ Item (VStr "a") (VStr "1.1") VUndefined VUndefined VUndefined;
      Item (VStr "b") (VStr "1.1") VUndefined VUndefined VUndefined;
      Item (VStr "c") (VStr "2.1") VUndefined VUndefined VUndefined ] =
  List.filter (identifiedBy "1.1")
    [ Item (VStr "c") (VStr "2.1") VUndefined VUndefined VUndefined;
      Item (VStr "a") (VStr "1.1") VUndefined VUndefined VUndefined;
      Item (VStr "b") (VStr "1.1") VUndefined VUndefined VUndefined ].
Proof.
  apply (sortItemsByPolicyNumber_stable codeUnitCompare
           SorterFacts.codeUnitCompare_total
           [ Item (VStr "c") (VStr "2.1") VUndefined VUndefined VUndefined;
             Item (VStr "a") (VStr "1.1") VUndefined VUndefined VUndefined;
             Item (VStr "b") (VStr "1.1") VUndefined VUndefined VUndefined ]).
  vm_compute. reflexivity.
Defined.

End SorterEdgeFacts.

(** ** The API client and the field mapper, completed *)

Module ClientFacts.
Import Policies PageFacts Mapper.
Local Open Scope list_scope.

Lemma apiRequest_Ok_responded (o : fetch_outcome) (j : json) :
  apiRequest_settle o = Ok j -> exists r, o = Responded r /\ is2xx r.
Proof.
  unfold apiRequest_settle, apiRequest_try.
  destruct o as [e | r].
  - destruct e as [m | m | m]; try discriminate.
    destruct (String.eqb m FAILED_TO_FETCH); discriminate.
  - destruct (ok r) eqn:Eok; cbn [negb].
    + intros _. exists r. split; [ reflexivity | ].
      unfold ok in Eok. apply andb_true_iff in Eok as [Hlo Hhi].
      apply Z.leb_le in Hlo, Hhi. unfold is2xx. lia.
    + intros H. exfalso. revert H.
      destruct (status r =? 404); [ discriminate | ].
      destruct (status r >=? 500); [ discriminate | ].
      destruct (get_prop _ "detail") as [d | [m | m | m]]; cbn; try discriminate.
      destruct (String.eqb m FAILED_TO_FETCH); discriminate.
Qed.

(** X4: [apiRequest] returns a value only for a response with a status in
    200..299: [null] for 204, the parsed body otherwise; every other
    outcome of [fetch] is thrown. *)
Theorem apiRequest_returns_only_2xx (o : fetch_outcome) (j : json) :
  apiRequest_settle o = Ok j ->
  exists r, o = Responded r /\ is2xx r /\
            (status r = 204 /\ j = JPrim VNull \/
             status r <> 204 /\ body r = Ok j).
Proof.
  intros H. destruct (apiRequest_Ok_responded o j H) as (r & -> & H2).
  exists r. split; [ reflexivity | ]. split; [ exact H2 | ].
  revert H. unfold apiRequest_settle, apiRequest_try.
  rewrite (ApiFacts.ok_true r H2). cbn [negb].
  destruct (Z.eqb_spec (status r) 204) as [E | N].
  - intros H. injection H as <-. left. split; [ exact E | reflexivity ].
  - intros H. right. split; [ exact N | ].
    destruct (body r) as [b | [m | m | m]]; try discriminate.
    + congruence.
    + destruct (String.eqb m FAILED_TO_FETCH); discriminate.
Qed.

Lemma apiRequest_returns_only_2xx_witness :
  exists r, Responded (Response 204 (Throw (SyntaxError "Unexpected end of JSON input"))) =
            Responded r /\ is2xx r.
Proof.
  destruct (apiRequest_returns_only_2xx
              (Responded (Response 204 (Throw (SyntaxError "Unexpected end of JSON input"))))
              (JPrim VNull) eq_refl) as (r & E & H & _).
  exists r. split; assumption.
Defined.

Section WithServer.

Variable api : server.

Lemma mapM_objects records :
  mapM mapPolicy (map JObject records) = Ok (map mapped records).
Proof.
  induction records as [| fields rest IH]; [ reflexivity | ].
  cbn [map mapM]. rewrite IH. reflexivity.
Qed.

Lemma mapPolicy_names j p :
  mapPolicy j = Ok p -> policy_name p = policy_policyName p.
Proof.
  unfold mapPolicy.
  destruct (get_prop j "id"); [ | discriminate ].
  destruct (get_prop j "policy_id"); [ | discriminate ].
  destruct (get_prop j "policy_name"); [ | discriminate ].
  destruct (get_prop j "section"); [ | discriminate ].
  cbn. intros H. injection H as <-. reflexivity.
Qed.

Lemma mapM_names elems : forall l,
  mapM mapPolicy elems = Ok l ->
  Forall (fun p => policy_name p = policy_policyName p) l.
Proof.
  induction elems as [| j rest IH]; intros l H.
  - injection H as <-. constructor.
  - cbn [mapM] in H. destruct (mapPolicy j) as [p |] eqn:Ep; [ | discriminate ].
    cbn in H. destruct (mapM mapPolicy rest) as [k |]; [ | discriminate ].
    cbn in H. injection H as <-. constructor; [ | now apply IH ].
    now apply (mapPolicy_names j).
Qed.

Lemma getApprovedPolicies_fst sectionName st :
  fst (getApprovedPolicies api sectionName st) =
  match apiRequest_settle
          (api (length (requests st)) (GET (approvedEndpoint sectionName)))
        ≫= mapPolicies with
  | Ok mappedPolicies => mappedPolicies
  | Throw _ => []
  end.
Proof. reflexivity. Qed.

(** X5: [getApprovedPolicies] sends one request and never fails: a rejected
    fetch or a response outside 200..299 gives the empty list; an array of
    records gives their view-models, one for each record and in the same
    order; and in every view-model [name] and [policyName] are the same
    value. *)
Theorem getApprovedPolicies_maps (sectionName : option string) (st : page) :
  let o := api (length (requests st)) (GET (approvedEndpoint sectionName)) in
  snd (getApprovedPolicies api sectionName st) =
    after st [GET (approvedEndpoint sectionName)] /\
  ((forall r, o = Responded r -> ~ is2xx r) ->
   fst (getApprovedPolicies api sectionName st) = []) /\
  (forall r records,
     o = Responded r -> is2xx r -> status r <> 204 ->
     body r = Ok (JArray (map JObject records)) ->
     fst (getApprovedPolicies api sectionName st) = map mapped records) /\
  Forall (fun p => policy_name p = policy_policyName p)
         (fst (getApprovedPolicies api sectionName st)).
Proof.
  cbn zeta. rewrite getApprovedPolicies_fst.
  split; [ reflexivity | ]. split; [ | split ].
  - intros Hno.
    destruct (apiRequest_settle _) as [j |] eqn:E; [ | reflexivity ].
    apply apiRequest_Ok_responded in E as (r & Er & H2).
    elim (Hno r Er H2).
  - intros r records Er H2 H204 Hb. rewrite Er.
    unfold apiRequest_settle, apiRequest_try.
    rewrite (ApiFacts.ok_true r H2). cbn [negb].
    rewrite (proj2 (Z.eqb_neq _ _) H204), Hb. cbn.
    now rewrite mapM_objects.
  - destruct (apiRequest_settle _) as [j |]; [ | constructor ]. cbn.
    destruct (mapPolicies j) as [l |] eqn:Em; [ | constructor ].
    destruct j as [v | fields | elems]; cbn in Em.
    + destruct v; discriminate.
    + discriminate.
    + now apply (mapM_names elems).
Qed.

End WithServer.

Lemma getApprovedPolicies_maps_witness :
  fst (getApprovedPolicies Examples.secondSectionDown (Some (getSectionName "2"))
         (initialPage (Some []))) = [] /\
  fst (getApprovedPolicies Examples.published (Some (getSectionName "2"))
         (initialPage (Some []))) =
  [ Policy (VStr "u4") (VStr "2.2.2") (VStr "Delta") (VStr "Delta") (VStr "2") ].
Proof.
  split.
  - refine (proj1 (proj2 (getApprovedPolicies_maps Examples.secondSectionDown
                            (Some (getSectionName "2")) (initialPage (Some [])))) _).
    intros r E. vm_compute in E. injection E as <-. unfold is2xx. cbn. lia.
  - refine (eq_trans
              (proj1 (proj2 (proj2 (getApprovedPolicies_maps Examples.published
                                      (Some (getSectionName "2"))
                                      (initialPage (Some [])))))
                 (Response 200 (Ok (JArray [Examples.delta])))
                 [ {[ "id" := VStr "u4"; "policy_id" := VStr "2.2.2";
                      "policy_name" := VStr "Delta"; "section" := VStr "2" ]} ]
                 _ _ _ _) _).
    + vm_compute. reflexivity.
    + unfold is2xx. cbn. lia.
    + cbn. lia.
    + reflexivity.
    + vm_compute. reflexivity.
Defined.

End ClientFacts.

(** ** Runs of the listing page *)

Module PageRunFacts.
Import Policies PageFacts PageRuns.
Local Open Scope list_scope.

(** *** What the pieces of a rendering return *)



Lemma map_filter_sublist {A B} (f : A -> B) (g : A -> bool) l :
  map f (List.filter g l) `sublist_of` map f l.
Proof.
  induction l as [| x l IH]; cbn; [ constructor | ].
  destruct (g x); cbn; now constructor.
Qed.

Lemma shown_items q : forall sws,
  flat_map sw_items (List.filter (shouldShow q) sws) = flat_map sw_items sws.
Proof.
  induction sws as [| sw sws IH]; [ reflexivity | ].
  cbn [List.filter flat_map]. unfold shouldShow at 1.
  destruct (sw_items sw) as [| it items] eqn:E; cbn [length Nat.eqb negb orb].
  - destruct (String.eqb q ""); cbn [flat_map]; rewrite ?E; exact IH.
  - cbn [flat_map]. now rewrite E, IH.
Qed.

Lemma renderChildren_ids q open sws :
  sectionIds (renderChildren q open sws) =
  map (fun sw => sec_id (sw_section sw)) (List.filter (shouldShow q) sws).
Proof.
  unfold renderChildren.
  assert (H : forall l,
            sectionIds (map (fun sw => SectionChild (createSectionElement open sw)) l) =
            map (fun sw => sec_id (sw_section sw)) l).
  { induction l as [| sw l IH]; [ reflexivity | ]. cbn. now rewrite <- IH. }
  rewrite <- H. now destruct (map _ (List.filter _ sws)).
Qed.

Lemma renderChildren_cards q open sws :
  shownCards (renderChildren q open sws) = flat_map sw_items sws.
Proof.
  rewrite <- (shown_items q). unfold renderChildren.
  assert (H : forall l,
            shownCards (map (fun sw => SectionChild (createSectionElement open sw)) l) =
            flat_map sw_items l).
  { induction l as [| sw l IH]; [ reflexivity | ]. cbn. now rewrite <- IH. }
  rewrite <- H. now destruct (map _ (List.filter _ sws)).
Qed.

Lemma renderChildren_classes q open sws :
  Forall (shownAsRecorded open) (renderChildren q open sws).
Proof.
  unfold renderChildren.
  assert (H : forall l,
            Forall (shownAsRecorded open)
                   (map (fun sw => SectionChild (createSectionElement open sw)) l)).
  { induction l as [| sw l IH]; constructor; [ split; reflexivity | exact IH ]. }
  specialize (H (List.filter (shouldShow q) sws)).
  destruct (map _ (List.filter _ sws)); [ repeat constructor | exact H ].
Qed.

Lemma renderChildren_nonempty q open sws : renderChildren q open sws <> [].
Proof. unfold renderChildren. now destruct (map _ (List.filter _ sws)). Qed.

Section WithServer.

Variable localeCompare : string -> string -> Z.
Variable api : server.

(** The sections of the primary path, with what each holds. *)
Lemma fetchSection_fst section st :
  fst (fetchSection localeCompare api section st) =
  match filterAndSort localeCompare (searchTerm st)
          (map (sectionItem section)
               (fst (getApprovedPolicies api (Some (sec_title section)) st))) with
  | Ok filteredItems => (false, SectionWithItems section filteredItems)
  | Throw _ => (true, SectionWithItems section [])
  end.
Proof. reflexivity. Qed.

Lemma searchTerm_after st sent : searchTerm (after st sent) = searchTerm st.
Proof. reflexivity. Qed.

Lemma fetchSections_filled secs : forall st,
  Forall2 (filled localeCompare (searchTerm st)) secs
          (snd (fst (fetchSections localeCompare api secs st))).
Proof.
  induction secs as [| section rest IH]; intros st; [ constructor | ].
  cbn [fetchSections]. unfold mbind, M_bind.
  pose proof (fetchSection_fst section st) as H1.
  pose proof (fetchSection_after localeCompare api section st) as H2.
  destruct (fetchSection localeCompare api section st) as [[failed sw] st1].
  cbn [fst snd] in H1, H2. subst st1.
  specialize (IH (after st [sectionRequest section])).
  rewrite searchTerm_after in IH.
  destruct (fetchSections localeCompare api rest _) as [[failedRest sws] st2].
  cbn [fst snd] in IH |- *. constructor; [ | exact IH ].
  destruct (filterAndSort _ _ _) as [filteredItems |] eqn:E;
    injection H1 as -> ->; split; cbn; auto.
  right. eexists. split; [ exact E | ].
  apply List.Forall_forall. intros it Hin. apply in_map_iff in Hin as (p & <- & _).
  split; reflexivity.
Qed.

Lemma sections_titled section :
  In section sections -> getSectionName (sec_key section) = sec_title section.
Proof. intros [<- | [<- | [<- | []]]]; reflexivity. Qed.

Lemma groupOf_filed section allPolicies :
  In section sections ->
  Forall (filedUnder section) (groupOf (sec_key section) allPolicies).
Proof.
  intros Hs. apply List.Forall_forall. intros it Hin.
  apply groupOf_In in Hin as (p & _ & Hk & ->).
  unfold filedUnder, itemOf, groupedItem. cbn [item_section item_sectionName].
  fold (sectionKeyOf p). rewrite Hk. split; [ reflexivity | ].
  now rewrite sections_titled.
Qed.

Lemma Forall2_In_l {A B} (P Q : A -> B -> Prop) l k :
  (forall a b, In a l -> P a b -> Q a b) -> Forall2 P l k -> Forall2 Q l k.
Proof.
  intros H F. induction F as [| a b l k Hab F IH]; constructor.
  - apply H; [ now left | exact Hab ].
  - apply IH. intros a' b' Hin. apply H. now right.
Qed.

Lemma collectSections_filled st :
  Forall2 (filled localeCompare (searchTerm st)) sections
          (fst (collectSections localeCompare api st)).
Proof.
  rewrite collectSections_unfold. cbn zeta.
  pose proof (fetchSections_filled sections st) as Hprimary.
  destruct (fst (fst (fetchSections _ _ _ _))); [ | exact Hprimary ].
  cbn [fst]. destruct (fallbackSections _ _ _) as [grouped |] eqn:E;
    [ | exact Hprimary ].
  apply fallbackSections_Ok in E.
  revert E. apply Forall2_In_l. intros section sw Hin [Hs Hf].
  split; [ exact Hs | right ]. eexists. split; [ exact Hf | ].
  now apply groupOf_filed.
Qed.

Lemma collectSections_state st :
  exists sent, snd (collectSections localeCompare api st) = after st sent /\
               Forall readsApproved sent /\ (length sent <= 4)%nat.
Proof.
  assert (Hget : forall name, readsApproved (GET (approvedEndpoint name))).
  { intros name. repeat split. apply StringFacts.prefix_spec.
    unfold approvedEndpoint. destruct name as [name |].
    - destruct (String.eqb name ""); eexists; [ | reflexivity ].
      instantiate (1 := ""). reflexivity.
    - exists "". reflexivity. }
  rewrite collectSections_unfold. cbn zeta.
  destruct (fst (fst (fetchSections _ _ _ _))); cbn [snd]; eexists;
    (split; [ reflexivity | ]); (split; [ | cbn; lia ]);
    repeat constructor; try apply (Hget (Some _)); apply (Hget None).
Qed.

Lemma filled_sections q : forall secs sws,
  Forall2 (filled localeCompare q) secs sws -> map sw_section sws = secs.
Proof.
  induction 1 as [| section sw secs sws [Hs _] _ IH]; [ reflexivity | ].
  cbn. now rewrite Hs, IH.
Qed.


(** A rendering, whatever path it takes. *)
Lemma renderSections_result st children :
  container st = Some children ->
  exists sws sent,
    Forall2 (filled localeCompare (searchTerm st)) sections sws /\
    Forall readsApproved sent /\ (length sent <= 4)%nat /\
    snd (renderSections localeCompare api st) =
    with_currentPolicyIds
      (with_container (after st sent)
         (Some (renderChildren (searchTerm st) (openSections st) sws)))
      (recordedIds sws).
Proof.
  intros Hc. rewrite (renderSections_unfold localeCompare api st children Hc).
  cbn zeta. cbn [snd].
  pose proof (collectSections_filled (with_container st (Some []))) as Hf.
  destruct (collectSections_state (with_container st (Some [])))
    as (sent & Hst & Hread & Hlen).
  exists (fst (collectSections localeCompare api (with_container st (Some [])))), sent.
  split; [ exact Hf | ]. split; [ exact Hread | ]. split; [ exact Hlen | ].
  rewrite Hst. reflexivity.
Qed.

Lemma renderSections_without st :
  container st = None -> snd (renderSections localeCompare api st) = st.
Proof. intros Hc. unfold renderSections. now rewrite Hc. Qed.

(** X6: Whatever the server answers, a rendering leaves a container that is
    not empty; its section elements are among those of the sections 1, 2
    and 3 and stand in that order; with an empty search box they are
    exactly those three; while a search is on none of them is without a
    card; and the "No results found" message never stands beside a section
    element. *)
Theorem renderSections_shape (st : page) (children : list child) :
  container st = Some children ->
  exists children',
    container (snd (renderSections localeCompare api st)) = Some children' /\
    children' <> [] /\
    sectionIds children' `sublist_of` [1; 2; 3] /\
    (searchTerm st = "" -> sectionIds children' = [1; 2; 3]) /\
    (searchTerm st <> "" ->
     forall el, In (SectionChild el) children' -> cards el <> []) /\
    (In NoResults children' -> children' = [NoResults]).
Proof.
  intros Hc.
  destruct (renderSections_result st children Hc) as (sws & sent & Hf & _ & _ & ->).
  eexists. split; [ reflexivity | ].
  split; [ apply renderChildren_nonempty | ].
  assert (Hids : map (fun sw => sec_id (sw_section sw)) sws = [1; 2; 3]).
  { rewrite <- (map_map sw_section sec_id), (filled_sections _ _ _ Hf). reflexivity. }
  split; [ | split; [ | split ] ].
  - rewrite renderChildren_ids, <- Hids. apply map_filter_sublist.
  - intros ->. rewrite renderChildren_ids, <- Hids. f_equal.
    apply FilterFacts.filter_all. intros sw. unfold shouldShow. apply orb_true_r.
  - intros Hq el. unfold renderChildren.
    assert (H : In (SectionChild el)
                   (map (fun sw => SectionChild (createSectionElement (openSections st) sw))
                        (List.filter (shouldShow (searchTerm st)) sws)) ->
                cards el <> []).
    { intros Hin. apply in_map_iff in Hin as (sw & E & Hin).
      injection E as <-. apply filter_In in Hin as [_ Hshow].
      unfold shouldShow in Hshow.
      destruct (String.eqb_spec (searchTerm st) ""); [ contradiction | ].
      cbn. destruct (sw_items sw); [ discriminate | discriminate ]. }
    destruct (map _ (List.filter _ sws)) as [| c l]; [ | exact H ].
    intros [E | []]. discriminate.
  - unfold renderChildren.
    destruct (map _ (List.filter _ sws)) as [| c l] eqn:E; [ reflexivity | ].
    intros Hin. exfalso. rewrite <- E in Hin.
    apply in_map_iff in Hin as (sw & Hsw & _). discriminate.
Qed.

Section Ordered.

Hypothesis localeCompare_total :
  forall a b, 0 < localeCompare a b -> localeCompare b a <= 0.
Hypothesis localeCompare_trans :
  forall a b c,
    localeCompare a b <= 0 -> localeCompare b c <= 0 -> localeCompare a c <= 0.



End Ordered.

(** *** The invariant of the page *)

Lemma renderSections_consistent st :
  NoDup (openSections st) -> (length (notifications st) <= 1)%nat ->
  (match container st with Some _ => True | None => consistent st end) ->
  consistent (snd (renderSections localeCompare api st)).
Proof.
  intros Hopen Hnote Hnone.
  destruct (container st) as [children |] eqn:Hc;
    [ | now rewrite (renderSections_without st Hc) ].
  destruct (renderSections_result st children Hc) as (sws & sent & Hf & _ & _ & ->).
  split; [ exact Hopen | ]. split; [ exact Hnote | ].
  cbn [container with_currentPolicyIds with_container openSections currentPolicyIds].
  split; [ | split ].
  - apply (sublist_NoDup _ [1; 2; 3]).
    + repeat (apply NoDup_cons; split;
              [ rewrite ?not_elem_of_cons; repeat split;
                  try discriminate; apply not_elem_of_nil | ]).
      apply NoDup_nil_2.
    + rewrite renderChildren_ids.
      replace [1; 2; 3] with (map (fun sw => sec_id (sw_section sw)) sws).
      * apply map_filter_sublist.
      * rewrite <- (map_map sw_section sec_id), (filled_sections _ _ _ Hf).
        reflexivity.
  - apply renderChildren_classes.
  - unfold recordedIds. now rewrite renderChildren_cards.
Qed.

End WithServer.

(** *** Clicking a section header *)

Lemma delete_NoDup (sectionId : Z) : forall l index,
  l !! index = Some sectionId -> NoDup l ->
  NoDup (delete index l) /\ (sectionId ∉ delete index l) /\
  forall x, x <> sectionId -> (x ∈ delete index l <-> x ∈ l).
Proof.
  induction l as [| y l IH]; intros [| index] H Hl; try discriminate.
  - cbn in H. injection H as ->.
    change (delete 0%nat (sectionId :: l)) with l.
    apply NoDup_cons in Hl as [Hy Hl]. split; [ exact Hl | ]. split; [ exact Hy | ].
    intros x Hx. rewrite elem_of_cons. tauto.
  - cbn in H. change (delete (S index) (y :: l)) with (y :: delete index l).
    apply NoDup_cons in Hl as [Hy Hl].
    destruct (IH index H Hl) as (Hnd & Hout & Hothers).
    assert (Hne : y <> sectionId).
    { intros ->. apply Hy. eapply list_elem_of_lookup_2. exact H. }
    split; [ | split ].
    + apply NoDup_cons. split; [ | exact Hnd ].
      intros Hin. apply Hy. now apply (Hothers y Hne).
    + apply not_elem_of_cons. split; [ congruence | exact Hout ].
    + intros x Hx. rewrite !elem_of_cons, (Hothers x Hx). tauto.
Qed.

Lemma openSections_toggle sectionId st :
  openSections (toggleSection sectionId st) =
  match indexOf sectionId (openSections st) with
  | Some index => delete index (openSections st)
  | None => openSections st ++ [sectionId]
  end.
Proof. unfold toggleSection. cbn. now destruct (container st). Qed.

Lemma container_toggle sectionId st :
  container (toggleSection sectionId st) =
  setOpenClass sectionId
    (bool_decide (sectionId ∈ openSections (toggleSection sectionId st)))
    <$> container st.
Proof.
  unfold toggleSection, with_openSections. cbn [container].
  destruct (container st); reflexivity.
Qed.

Lemma toggle_open sectionId st :
  NoDup (openSections st) ->
  NoDup (openSections (toggleSection sectionId st)) /\
  (sectionId ∈ openSections (toggleSection sectionId st) <->
   sectionId ∉ openSections st) /\
  forall x, x <> sectionId ->
            (x ∈ openSections (toggleSection sectionId st) <-> x ∈ openSections st).
Proof.
  intros Hl. rewrite openSections_toggle.
  destruct (indexOf sectionId (openSections st)) as [index |] eqn:E.
  - apply ToggleFacts.indexOf_Some in E.
    destruct (delete_NoDup sectionId _ index E Hl) as (Hnd & Hout & Hothers).
    split; [ exact Hnd | ]. split; [ | exact Hothers ].
    split; [ intros H; contradiction | ].
    intros H. elim H. eapply list_elem_of_lookup_2. exact E.
  - apply ToggleFacts.indexOf_None in E. split; [ | split ].
    + apply NoDup_app. split; [ exact Hl | ]. split; [ | apply NoDup_singleton ].
      intros x Hx Hin. apply list_elem_of_singleton in Hin. congruence.
    + rewrite elem_of_app, list_elem_of_singleton. tauto.
    + intros x Hx. rewrite elem_of_app, list_elem_of_singleton. tauto.
Qed.

Lemma setOpenClass_ids sectionId isOpen children :
  sectionIds (setOpenClass sectionId isOpen children) = sectionIds children.
Proof.
  unfold sectionIds.
  induction children as [| [el |] rest IH]; cbn [setOpenClass]; [ reflexivity | | ].
  - destruct (data_section_id el =? sectionId); [ reflexivity | ].
    cbn [flat_map]. now rewrite IH.
  - cbn [flat_map]. now rewrite IH.
Qed.

Lemma setOpenClass_cards sectionId isOpen children :
  shownCards (setOpenClass sectionId isOpen children) = shownCards children.
Proof.
  unfold shownCards.
  induction children as [| [el |] rest IH]; cbn [setOpenClass]; [ reflexivity | | ].
  - destruct (data_section_id el =? sectionId); [ reflexivity | ].
    cbn [flat_map]. now rewrite IH.
  - cbn [flat_map]. now rewrite IH.
Qed.

Lemma shownAsRecorded_others sectionId open open' children :
  (forall x, x <> sectionId -> (x ∈ open' <-> x ∈ open)) ->
  sectionId ∉ sectionIds children ->
  Forall (shownAsRecorded open) children -> Forall (shownAsRecorded open') children.
Proof.
  intros Hothers. induction children as [| [el |] rest IH]; intros Hout H;
    [ constructor | | ]; inversion H as [| ? ? Hc Hrest]; subst.
  - cbn in Hout. apply not_elem_of_cons in Hout as [Hne Hout].
    constructor; [ | now apply IH ].
    destruct Hc as [Ha Hb]. split.
    + rewrite Ha. apply bool_decide_ext. symmetry. apply Hothers. congruence.
    + rewrite Hb. apply bool_decide_ext. symmetry. apply Hothers. congruence.
  - constructor; [ exact I | now apply IH ].
Qed.

Lemma setOpenClass_recorded sectionId open open' children :
  (forall x, x <> sectionId -> (x ∈ open' <-> x ∈ open)) ->
  NoDup (sectionIds children) ->
  Forall (shownAsRecorded open) children ->
  Forall (shownAsRecorded open')
         (setOpenClass sectionId (bool_decide (sectionId ∈ open')) children).
Proof.
  intros Hothers. induction children as [| [el |] rest IH]; intros Hnd H;
    [ constructor | | ]; inversion H as [| ? ? Hc Hrest]; subst.
  - cbn in Hnd. apply NoDup_cons in Hnd as [Hout Hnd]. cbn [setOpenClass].
    destruct (Z.eqb_spec (data_section_id el) sectionId) as [E | N].
    + constructor.
      * cbn. rewrite E. split; reflexivity.
      * rewrite E in Hout. now apply (shownAsRecorded_others sectionId open).
    + constructor; [ | now apply IH ].
      destruct Hc as [Ha Hb]. split.
      * rewrite Ha. apply bool_decide_ext. symmetry. now apply Hothers.
      * rewrite Hb. apply bool_decide_ext. symmetry. now apply Hothers.
  - cbn [setOpenClass]. constructor; [ exact I | now apply IH ].
Qed.

Lemma toggleSection_consistent sectionId st :
  consistent st -> consistent (toggleSection sectionId st).
Proof.
  intros (Hopen & Hnote & Hcont).
  destruct (toggle_open sectionId st Hopen) as (Hnd & _ & Hothers).
  split; [ exact Hnd | ]. split.
  - replace (notifications (toggleSection sectionId st)) with (notifications st);
      [ exact Hnote | ].
    unfold toggleSection. cbn. now destruct (container st).
  - rewrite container_toggle.
    replace (currentPolicyIds (toggleSection sectionId st)) with (currentPolicyIds st)
      by (unfold toggleSection; cbn; now destruct (container st)).
    destruct (container st) as [children |]; [ | exact I ]. cbn.
    destruct Hcont as (Hids & Hclasses & Hrec).
    rewrite setOpenClass_ids, setOpenClass_cards.
    split; [ exact Hids | ]. split; [ | exact Hrec ].
    now apply (setOpenClass_recorded sectionId (openSections st)).
Qed.




(** *** Every event keeps the page consistent and only reads *)

Section Runs.

Variable localeCompare : string -> string -> Z.
Variable api : server.

Lemma checkForNewPolicies_cases st :
  snd (checkForNewPolicies localeCompare api st) = st \/
  snd (checkForNewPolicies localeCompare api st) = after st [GET APPROVED] \/
  exists count,
    container st <> None /\
    snd (checkForNewPolicies localeCompare api st) =
    snd (renderSections localeCompare api
           (showNewPoliciesNotification count (after st [GET APPROVED]))).
Proof.
  destruct (container st) as [children |] eqn:Hc.
  - rewrite (checkForNewPolicies_unfold localeCompare api st children Hc). cbn zeta.
    destruct (_ <? _)%nat; [ | right; left; reflexivity ].
    right. right. eexists. split; [ discriminate | reflexivity ].
  - left. unfold checkForNewPolicies. now rewrite Hc.
Qed.

Lemma NoDup_initial : NoDup [1; 2; 3].
Proof.
  repeat (apply NoDup_cons; split;
          [ rewrite ?not_elem_of_cons; repeat split;
              try discriminate; apply not_elem_of_nil | ]).
  apply NoDup_nil_2.
Qed.

Lemma consistent_without st :
  NoDup (openSections st) -> (length (notifications st) <= 1)%nat ->
  container st = None -> consistent st.
Proof. intros Hopen Hnote Hc. unfold consistent. now rewrite Hc. Qed.

Lemma step_consistent e st :
  consistent st -> consistent (step localeCompare api e st).
Proof.
  intros Hst. pose proof Hst as (Hopen & Hnote & Hcont).
  destruct e as [| value | sectionId |]; cbn [step].
  - apply renderSections_consistent; auto. now destruct (container st).
  - unfold handleSearch.
    set (st2 := if String.eqb value "" then with_searchTerm st value
                else with_openSections (with_searchTerm st value) [1; 2; 3]).
    assert (Hopen2 : NoDup (openSections st2)).
    { subst st2. destruct (String.eqb value ""); [ exact Hopen | apply NoDup_initial ]. }
    assert (Hnote2 : (length (notifications st2) <= 1)%nat).
    { subst st2. now destruct (String.eqb value ""). }
    apply renderSections_consistent; [ exact Hopen2 | exact Hnote2 | ].
    destruct (container st2) eqn:Hc; [ exact I | ].
    now apply consistent_without.
  - now apply toggleSection_consistent.
  - destruct (checkForNewPolicies_cases st) as [-> | [-> | (count & Hc & ->)]].
    + exact Hst.
    + exact Hst.
    + apply renderSections_consistent.
      * exact Hopen.
      * unfold showNewPoliciesNotification. cbn.
        destruct (notifications st) as [| n [| n' others]]; cbn in Hnote |- *; lia.
      * cbn. destruct (container st); [ exact I | contradiction ].
Qed.


Lemma renderSections_sent st :
  exists sent,
    requests (snd (renderSections localeCompare api st)) = requests st ++ sent /\
    Forall readsApproved sent /\ (length sent <= 4)%nat.
Proof.
  destruct (container st) as [children |] eqn:Hc.
  - destruct (renderSections_result localeCompare api st children Hc)
      as (sws & sent & _ & Hread & Hlen & ->).
    exists sent. repeat split; assumption.
  - rewrite (renderSections_without localeCompare api st Hc).
    exists []. rewrite app_nil_r. repeat split; [ constructor | cbn; lia ].
Qed.

Lemma step_sent e st :
  exists sent,
    requests (step localeCompare api e st) = requests st ++ sent /\
    Forall readsApproved sent /\ (length sent <= 5)%nat /\
    (forall sectionId, e = Toggle sectionId -> sent = []).
Proof.
  assert (Hall : readsApproved (GET APPROVED)) by (repeat split).
  destruct e as [| value | sectionId |]; cbn [step].
  - destruct (renderSections_sent st) as (sent & -> & Hread & Hlen).
    exists sent. split; [ reflexivity | ]. split; [ exact Hread | ].
    split; [ lia | discriminate ].
  - unfold handleSearch.
    destruct (renderSections_sent
                (if String.eqb value "" then with_searchTerm st value
                 else with_openSections (with_searchTerm st value) [1; 2; 3]))
      as (sent & -> & Hread & Hlen).
    exists sent. split; [ now destruct (String.eqb value "") | ].
    split; [ exact Hread | ]. split; [ lia | discriminate ].
  - exists []. rewrite app_nil_r. split.
    + unfold toggleSection. cbn. now destruct (container st).
    + split; [ constructor | ]. split; [ cbn; lia | reflexivity ].
  - destruct (checkForNewPolicies_cases st) as [-> | [-> | (count & Hc & ->)]].
    + exists []. rewrite app_nil_r. split; [ reflexivity | ].
      split; [ constructor | ]. split; [ cbn; lia | discriminate ].
    + exists [GET APPROVED]. split; [ reflexivity | ].
      split; [ constructor; [ exact Hall | constructor ] | ].
      split; [ cbn; lia | discriminate ].
    + destruct (renderSections_sent
                  (showNewPoliciesNotification count (after st [GET APPROVED])))
        as (sent & -> & Hread & Hlen).
      exists (GET APPROVED :: sent). split.
      * cbn [requests showNewPoliciesNotification with_notifications after
             with_requests]. now rewrite <- app_assoc.
      * split; [ constructor; [ exact Hall | exact Hread ] | ].
        split; [ cbn; lia | discriminate ].
Qed.

(** X10: The listing page only reads: along every run each request it sends is
    a [GET] without a body to the endpoint of the approved policies, at
    most five requests are sent for an event, and a click on a section
    header sends none. *)
Theorem run_reads_only (events : list event) (st : page) :
  exists sent,
    requests (run localeCompare api events st) = requests st ++ sent /\
    Forall readsApproved sent /\
    (length sent <= 5 * length events)%nat /\
    ((forall e, In e events -> exists sectionId, e = Toggle sectionId) ->
     sent = []).
Proof.
  unfold run. revert st.
  induction events as [| e events IH]; intros st.
  - exists []. rewrite app_nil_r. repeat split; [ constructor | cbn; lia ].
  - cbn [fold_left].
    destruct (step_sent e st) as (sent1 & H1 & Hread1 & Hlen1 & Htoggle).
    destruct (IH (step localeCompare api e st)) as (sent2 & H2 & Hread2 & Hlen2 & Hnone).
    exists (sent1 ++ sent2). rewrite H2, H1, <- app_assoc.
    split; [ reflexivity | ]. split; [ now apply Forall_app | ].
    split; [ rewrite length_app; cbn [length]; lia | ].
    intros Hall. destruct (Hall e (or_introl eq_refl)) as [sectionId He].
    rewrite (Htoggle sectionId He), Hnone; [ reflexivity | ].
    intros e' Hin. apply Hall. now right.
Qed.

Lemma renderSections_view st :
  openSections (snd (renderSections localeCompare api st)) = openSections st /\
  searchTerm (snd (renderSections localeCompare api st)) = searchTerm st /\
  notifications (snd (renderSections localeCompare api st)) = notifications st.
Proof.
  destruct (container st) as [children |] eqn:Hc.
  - destruct (renderSections_result localeCompare api st children Hc)
      as (sws & sent & _ & _ & _ & ->).
    repeat split.
  - rewrite (renderSections_without localeCompare api st Hc). repeat split.
Qed.

(** X11: A check of the poller never collapses or expands a section and never
    touches the search box: it leaves the list of open sections and the
    search term as they were, and on a page in a consistent state every
    section element on display after the check, re-rendered or not,
    carries the class [open] exactly when its section was open before. *)
Theorem checkForNewPolicies_keeps_view (st : page) :
  consistent st ->
  let st' := snd (checkForNewPolicies localeCompare api st) in
  openSections st' = openSections st /\
  searchTerm st' = searchTerm st /\
  forall children',
    container st' = Some children' ->
    Forall (shownAsRecorded (openSections st)) children'.
Proof.
  intros Hst. cbn zeta.
  pose proof (step_consistent Poll st Hst) as (_ & _ & Hcont). cbn [step] in Hcont.
  assert (Hview : openSections (snd (checkForNewPolicies localeCompare api st)) =
                    openSections st /\
                  searchTerm (snd (checkForNewPolicies localeCompare api st)) =
                    searchTerm st).
  { destruct (checkForNewPolicies_cases st) as [-> | [-> | (count & _ & ->)]];
      [ split; reflexivity | split; reflexivity | ].
    destruct (renderSections_view
                (showNewPoliciesNotification count (after st [GET APPROVED])))
      as (-> & -> & _).
    split; reflexivity. }
  destruct Hview as [Hopen Hterm]. split; [ exact Hopen | ]. split; [ exact Hterm | ].
  intros children' Hc. rewrite Hc, Hopen in Hcont. apply Hcont.
Qed.

End Runs.

(** *** The listing page on the example servers *)

Lemma checkForNewPolicies_keeps_view_witness :
  openSections
    (snd (checkForNewPolicies codeUnitCompare Examples.published
            (toggleSection 2 (initialPage (Some []))))) = [1; 3].
Proof.
  refine (proj1 (checkForNewPolicies_keeps_view codeUnitCompare Examples.published
                   (toggleSection 2 (initialPage (Some []))) _)).
  apply toggleSection_consistent.
  split; [ apply NoDup_initial | ]. split; [ cbn; lia | ]. cbn [container initialPage].
  split; [ apply NoDup_nil_2 | ]. split; [ constructor | reflexivity ].
Defined.

Lemma renderSections_shape_witness :
  exists children',
    container (snd (renderSections codeUnitCompare Examples.secondSectionDown
                      (initialPage (Some [])))) = Some children' /\
    sectionIds children' = [1; 2; 3].
Proof.
  destruct (renderSections_shape codeUnitCompare Examples.secondSectionDown
              (initialPage (Some [])) [] eq_refl)
    as (children' & Hc & _ & _ & Hall & _).
  exists children'. split; [ exact Hc | ]. apply Hall. reflexivity.
Defined.




Lemma run_reads_only_witness :
  requests (run codeUnitCompare Examples.published [Toggle 2; Toggle 3]
                (initialPage (Some []))) = [].
Proof.
  destruct (run_reads_only codeUnitCompare Examples.published [Toggle 2; Toggle 3]
              (initialPage (Some []))) as (sent & -> & _ & _ & Hnone).
  rewrite Hnone; [ reflexivity | ].
  intros e [<- | [<- | []]]; eexists; reflexivity.
Defined.

End PageRunFacts.

(** ** Searching, narrowed *)

Module SearchFacts.
Import Policies StringFacts.
Local Open Scope list_scope.










End SearchFacts.

(** ** The suggestion form after a submission *)

Module SuggestionOutcomes.
Import Suggestions.
Local Open Scope list_scope.



End SuggestionOutcomes.

(** ** What the admin actions send, and when *)

Module AdminRequestFacts.
Import Admin AdminRequests.
Local Open Scope list_scope.

Lemma requests_alert m st : requests (alert m st) = requests st.
Proof. reflexivity. Qed.
Lemma requests_redirect h st : requests (redirect h st) = requests st.
Proof. reflexivity. Qed.
Lemma requests_callOnSuccess g st : requests (callOnSuccess g st) = requests st.
Proof. now destruct g. Qed.
Lemma calls_alert m st : onSuccessCalls (alert m st) = onSuccessCalls st.
Proof. reflexivity. Qed.
Lemma calls_redirect h st : onSuccessCalls (redirect h st) = onSuccessCalls st.
Proof. reflexivity. Qed.
Lemma calls_send r st : onSuccessCalls (send r st) = onSuccessCalls st.
Proof. reflexivity. Qed.
Lemma calls_callOnSuccess g st :
  onSuccessCalls (callOnSuccess g st) =
  (if g then S (onSuccessCalls st) else onSuccessCalls st).
Proof. now destruct g. Qed.

Lemma ok_not_404 r : ok r = true -> (status r =? 404) = false.
Proof.
  unfold ok. intros H. apply andb_true_iff in H as [_ H]. apply Z.leb_le in H.
  apply Z.eqb_neq. lia.
Qed.

Ltac other_status E :=
  match goal with
  | |- context [status ?r =? 404] =>
      replace (status r =? 404) with false
        by (symmetry; apply Z.eqb_neq; rewrite E; discriminate)
  end; rewrite ?andb_false_r.

Lemma deletePolicy_request_sends policyId onSuccess del st :
  requests (deletePolicy_request policyId onSuccess del st) =
    requests st ++ [deleteRequest policyId (accessToken st)] /\
  onSuccessCalls (deletePolicy_request policyId onSuccess del st) =
    (if onSuccess && refreshes del then S (onSuccessCalls st) else onSuccessCalls st).
Proof.
  unfold deletePolicy_request, refreshes. destruct del as [e | response].
  - rewrite andb_false_r. split; reflexivity.
  - destruct (ok (resp response)) eqn:Eok; cbn [negb orb].
    + rewrite requests_callOnSuccess, calls_callOnSuccess, andb_true_r.
      split; reflexivity.
    + destruct (Z.eqb_spec (status (resp response)) 401) as [E | _];
        [ other_status E; split; reflexivity | ].
      destruct (Z.eqb_spec (status (resp response)) 403) as [E | _];
        [ other_status E; split; reflexivity | ].
      destruct (status (resp response) =? 404).
      * rewrite requests_callOnSuccess, calls_callOnSuccess, andb_true_r.
        split; reflexivity.
      * rewrite andb_false_r. split; reflexivity.
Qed.

(** X14: [deletePolicy] sends nothing without a stored token; with one it asks
    who the user is and sends the [DELETE] request exactly when that
    answer says, with a status in 200..299, that the role is ["admin"] and
    the dialog was confirmed. [approvePolicy] asks nobody: it sends its
    [PUT] request exactly when a token is stored and the dialog was
    confirmed. Every request carries the stored token, and [onSuccess] is
    called, once, exactly when it was given, the action was sent and was
    answered with a success or with 404. *)
Theorem admin_requests_guarded (policyId : string) (onSuccess confirmed : bool)
    (me answer : adminOutcome) (st : browser) :
  let token := accessToken st in
  requests (deletePolicy policyId onSuccess confirmed me answer st) =
    requests st ++
    (if noToken token then []
     else meRequest token ::
          (if verifiedAdmin me && confirmed then [deleteRequest policyId token]
           else [])) /\
  onSuccessCalls (deletePolicy policyId onSuccess confirmed me answer st) =
    (if negb (noToken token) && verifiedAdmin me && confirmed && onSuccess &&
        refreshes answer
     then S (onSuccessCalls st) else onSuccessCalls st) /\
  requests (approvePolicy policyId onSuccess confirmed answer st) =
    requests st ++
    (if negb (noToken token) && confirmed then [approveRequest policyId token]
     else []) /\
  onSuccessCalls (approvePolicy policyId onSuccess confirmed answer st) =
    (if negb (noToken token) && confirmed && onSuccess && refreshes answer
     then S (onSuccessCalls st) else onSuccessCalls st).
Proof.
  cbn zeta. split; [ | split; [ | split ] ].
  - unfold deletePolicy. destruct (noToken (accessToken st));
      [ now rewrite requests_redirect, requests_alert, app_nil_r | ].
    destruct me as [e | userResponse]; cbn [verifiedAdmin andb]; [ reflexivity | ].
    destruct (ok (resp userResponse)); cbn [negb andb].
    + destruct (body (resp userResponse) ≫= _) as [userRole |]; [ | reflexivity ].
      destruct (bool_decide (userRole = VStr "admin")); cbn [negb andb];
        [ | reflexivity ].
      destruct confirmed; cbn [negb]; [ | reflexivity ].
      rewrite (proj1 (deletePolicy_request_sends _ _ _ _)). cbn [requests send accessToken].
      now rewrite <- app_assoc.
    + now destruct (status (resp userResponse) =? 401).
  - unfold deletePolicy. destruct (noToken (accessToken st)); [ reflexivity | ].
    cbn [negb andb].
    destruct me as [e | userResponse]; cbn [verifiedAdmin andb]; [ reflexivity | ].
    destruct (ok (resp userResponse)); cbn [negb andb].
    + destruct (body (resp userResponse) ≫= _) as [userRole |]; [ | reflexivity ].
      destruct (bool_decide (userRole = VStr "admin")); cbn [negb andb];
        [ | reflexivity ].
      destruct confirmed; cbn [negb andb]; [ | reflexivity ].
      rewrite (proj2 (deletePolicy_request_sends _ _ _ _)). reflexivity.
    + now destruct (status (resp userResponse) =? 401).
  - unfold approvePolicy. destruct (noToken (accessToken st)); cbn [negb andb];
      [ now rewrite requests_redirect, requests_alert, app_nil_r | ].
    destruct confirmed; cbn [negb]; [ | now rewrite app_nil_r ].
    destruct answer as [e | response]; [ reflexivity | ].
    destruct (ok (resp response)); cbn [negb];
      [ now rewrite requests_callOnSuccess | ].
    destruct (status (resp response) =? 401); [ reflexivity | ].
    destruct (status (resp response) =? 403); [ reflexivity | ].
    destruct (status (resp response) =? 404);
      [ now rewrite requests_callOnSuccess | reflexivity ].
  - unfold approvePolicy, refreshes.
    destruct (noToken (accessToken st)); cbn [negb andb]; [ reflexivity | ].
    destruct confirmed; cbn [negb andb]; [ | reflexivity ].
    destruct answer as [e | response]; [ now rewrite andb_false_r | ].
    destruct (ok (resp response)); cbn [negb orb].
    + rewrite calls_callOnSuccess, andb_true_r. reflexivity.
    + destruct (Z.eqb_spec (status (resp response)) 401) as [E | _];
        [ other_status E; reflexivity | ].
      destruct (Z.eqb_spec (status (resp response)) 403) as [E | _];
        [ other_status E; reflexivity | ].
      destruct (status (resp response) =? 404).
      * rewrite calls_callOnSuccess, andb_true_r. reflexivity.
      * now rewrite andb_false_r.
Qed.

End AdminRequestFacts.

(** ** The poller *)

Module PollingFacts.
Import Policies Polling.
Local Open Scope list_scope.

Section WithServer.

Variable localeCompare : string -> string -> Z.
Variable api : server.

Lemma clear_stored id s :
  tidy s -> pollingInterval s = Some id -> live (clearInterval id s) = [].
Proof.
  intros [Hl | (id' & delay & Hp & Hl & _)] Hid; cbn; rewrite Hl; [ reflexivity | ].
  rewrite Hp in Hid. injection Hid as ->. cbn. now rewrite Nat.eqb_refl.
Qed.

Lemma tidy_null s : tidy s -> pollingInterval s = None -> live s = [].
Proof. intros [Hl | (id & delay & Hp & _)] Hnull; congruence. Qed.

Lemma stopPolicyPolling_stops s :
  tidy s ->
  stopPolicyPolling s =
  State (page s) None [] (listeners s) (hidden s) (nextTimer s).
Proof.
  intros Hs. unfold stopPolicyPolling.
  destruct (pollingInterval s) as [id |] eqn:Hp.
  - unfold resetPollingInterval. cbn [page listeners hidden nextTimer clearInterval].
    now rewrite (clear_stored id s Hs Hp).
  - pose proof (tidy_null s Hs Hp) as Hl. destruct s; cbn in *. now subst.
Qed.

Lemma startPolicyPolling_tidy intervalSeconds s :
  tidy s -> tidy (startPolicyPolling localeCompare api intervalSeconds s).
Proof.
  intros Hs. unfold startPolicyPolling.
  set (s1 := match pollingInterval s with
             | Some id => clearInterval id s
             | None => s
             end).
  assert (H1 : live s1 = []).
  { subst s1. destruct (pollingInterval s) as [id |] eqn:Hp.
    - now apply clear_stored.
    - now apply tidy_null. }
  destruct (container (page s1)); [ | now left ].
  right. eexists _, _. cbn. rewrite H1. split; [ reflexivity | ].
  split; [ reflexivity | ]. now destruct (listeners s1).
Qed.

Lemma listeners_onVisibilityChange intervalSeconds s :
  listeners (onVisibilityChange localeCompare api intervalSeconds s) = listeners s.
Proof.
  unfold onVisibilityChange.
  destruct (hidden s), (pollingInterval s); reflexivity.
Qed.

Lemma onVisibilityChange_tidy intervalSeconds s :
  tidy s -> listeners s <> [] ->
  tidy (onVisibilityChange localeCompare api intervalSeconds s).
Proof.
  intros Hs Hreg. unfold onVisibilityChange. destruct (hidden s).
  - destruct (pollingInterval s) as [id |] eqn:Hp; [ | exact Hs ].
    left. cbn [live resetPollingInterval]. now apply clear_stored.
  - destruct (pollingInterval s) as [id |] eqn:Hp; [ exact Hs | ].
    right. eexists _, _. cbn. rewrite (tidy_null s Hs Hp).
    split; [ reflexivity | ]. split; [ reflexivity | exact Hreg ].
Qed.

Lemma listeners_tidy l : forall s,
  tidy s -> (l <> [] -> listeners s <> []) ->
  tidy (fold_left (fun s' intervalSeconds =>
                     onVisibilityChange localeCompare api intervalSeconds s') l s).
Proof.
  induction l as [| x l IH]; intros s Hs Hreg; [ exact Hs | ].
  cbn [fold_left]. assert (Hne : listeners s <> []) by (apply Hreg; discriminate).
  apply IH.
  - now apply onVisibilityChange_tidy.
  - intros _. now rewrite listeners_onVisibilityChange.
Qed.

Lemma tidy_hidden s nowHidden :
  tidy s ->
  tidy (State (page s) (pollingInterval s) (live s) (listeners s) nowHidden
              (nextTimer s)).
Proof. intros Hs. exact Hs. Qed.

Lemma step_tidy e s : tidy s -> tidy (pollStep localeCompare api e s).
Proof.
  intros Hs. destruct e as [intervalSeconds | | nowHidden | id]; cbn [pollStep].
  - now apply startPolicyPolling_tidy.
  - left. now rewrite stopPolicyPolling_stops.
  - apply listeners_tidy; [ now apply tidy_hidden | ]. intros Hne. exact Hne.
  - destruct (existsb _ (live s)); exact Hs.
Qed.

Lemma run_tidy events : forall s, tidy s -> tidy (pollRun localeCompare api events s).
Proof.
  unfold pollRun. induction events as [| e events IH]; intros s Hs; [ exact Hs | ].
  cbn [fold_left]. apply IH. now apply step_tidy.
Qed.

(** X15: The poller never leaks a timer: however it is started and stopped,
    however often the page is hidden and shown, at most one interval runs,
    and it is the one [pollingInterval] holds. *)
Theorem polling_single_timer (events : list pollEvent) (pg : Policies.page) :
  let s := pollRun localeCompare api events (fresh pg) in
  (length (live s) <= 1)%nat /\
  forall id delay, In (id, delay) (live s) -> pollingInterval s = Some id.
Proof.
  cbn zeta.
  destruct (run_tidy events (fresh pg) (or_introl eq_refl))
    as [Hl | (id & delay & Hp & Hl & _)]; rewrite Hl.
  - split; [ cbn; lia | intros ? ? [] ].
  - split; [ cbn; lia | ]. intros id' delay' [E | []]. congruence.
Qed.

Lemma listeners_hidden l : forall s,
  tidy s -> hidden s = true -> (l = [] -> live s = []) ->
  let s' := fold_left (fun s' intervalSeconds =>
                         onVisibilityChange localeCompare api intervalSeconds s') l s in
  page s' = page s /\ live s' = [].
Proof.
  induction l as [| x l IH]; intros s Hs Hh Hempty; cbn zeta.
  - split; [ reflexivity | now apply Hempty ].
  - cbn [fold_left].
    assert (H1 : hidden (onVisibilityChange localeCompare api x s) = true /\
                 page (onVisibilityChange localeCompare api x s) = page s /\
                 live (onVisibilityChange localeCompare api x s) = []).
    { unfold onVisibilityChange. rewrite Hh.
      destruct (pollingInterval s) as [id |] eqn:Hp.
      - split; [ exact Hh | ]. split; [ reflexivity | ].
        cbn [live resetPollingInterval]. now apply clear_stored.
      - split; [ exact Hh | ]. split; [ reflexivity | now apply tidy_null ]. }
    destruct H1 as (Hh1 & Hpg1 & Hl1).
    destruct (IH _ (or_introl Hl1) Hh1 (fun _ => Hl1)) as (Hpg2 & Hl2).
    split; [ congruence | exact Hl2 ].
Qed.

Lemma listeners_shown l : forall s,
  hidden s = false -> pollingInterval s <> None ->
  fold_left (fun s' intervalSeconds =>
               onVisibilityChange localeCompare api intervalSeconds s') l s = s.
Proof.
  induction l as [| x l IH]; intros s Hh Hp; [ reflexivity | ].
  cbn [fold_left].
  assert (E : onVisibilityChange localeCompare api x s = s).
  { unfold onVisibilityChange. rewrite Hh.
    destruct (pollingInterval s); [ reflexivity | contradiction ]. }
  rewrite E. now apply IH.
Qed.

(** X16: After [stopPolicyPolling], and once the page is hidden, no interval
    runs, and hiding the page leaves the page itself alone. When the page
    is shown again after [stopPolicyPolling] and [startPolicyPolling] has
    once registered a listener, the first listener makes one check at once
    and starts one interval with its own delay, and the later listeners do
    nothing: showing the page restarts a poller that had been stopped. *)
Theorem polling_stops_and_resumes (events : list pollEvent) (pg : Policies.page) :
  let s := pollRun localeCompare api events (fresh pg) in
  live (pollStep localeCompare api Stop s) = [] /\
  pollingInterval (pollStep localeCompare api Stop s) = None /\
  live (pollStep localeCompare api (Visibility true) s) = [] /\
  page (pollStep localeCompare api (Visibility true) s) = page s /\
  forall intervalSeconds others,
    listeners s = intervalSeconds :: others ->
    let stopped := pollStep localeCompare api Stop s in
    let shown := pollStep localeCompare api (Visibility false) stopped in
    live shown = [(nextTimer s, intervalSeconds * 1000)] /\
    pollingInterval shown = Some (nextTimer s) /\
    page shown = snd (checkForNewPolicies localeCompare api (page s)).
Proof.
  cbn zeta. pose proof (run_tidy events (fresh pg) (or_introl eq_refl)) as Hs.
  set (s := pollRun localeCompare api events (fresh pg)) in *. clearbody s.
  cbn [pollStep]. rewrite (stopPolicyPolling_stops s Hs).
  split; [ reflexivity | ]. split; [ reflexivity | ].
  assert (Hhide : let s' := fold_left (fun s' intervalSeconds =>
                     onVisibilityChange localeCompare api intervalSeconds s')
                     (listeners s)
                     (State (page s) (pollingInterval s) (live s) (listeners s) true
                            (nextTimer s)) in
                  page s' = page s /\ live s' = []).
  { apply (listeners_hidden (listeners s)
             (State (page s) (pollingInterval s) (live s) (listeners s) true
                    (nextTimer s))).
    - now apply tidy_hidden.
    - reflexivity.
    - intros El. cbn [live].
      destruct Hs as [Hl | (id & delay & _ & _ & Hreg)]; [ exact Hl | contradiction ]. }
  cbn zeta in Hhide. destruct Hhide as [Hpage Hlive].
  split; [ exact Hlive | ]. split; [ exact Hpage | ].
  intros intervalSeconds others El.
  cbn [page pollingInterval live listeners nextTimer]. rewrite El. cbn [fold_left].
  rewrite listeners_shown; [ | reflexivity | discriminate ].
  repeat split.
Qed.

End WithServer.

Lemma polling_single_timer_witness :
  (length (live (pollRun codeUnitCompare Examples.published
                     [Start 30; Visibility true; Visibility false; Start 60]
                     (fresh (initialPage (Some []))))) <= 1)%nat.
Proof.
  exact (proj1 (polling_single_timer codeUnitCompare Examples.published
                  [Start 30; Visibility true; Visibility false; Start 60]
                  (initialPage (Some [])))).
Defined.

Lemma polling_stops_and_resumes_witness :
  live (pollStep codeUnitCompare Examples.published (Visibility false)
          (pollStep codeUnitCompare Examples.published Stop
             (pollRun codeUnitCompare Examples.published [Start 30]
                  (fresh (initialPage (Some [])))))) = [(2%nat, 30000)].
Proof.
  refine (proj1 (proj2 (proj2 (proj2 (proj2
            (polling_stops_and_resumes codeUnitCompare Examples.published [Start 30]
               (initialPage (Some [])))))) 30 [] _)).
  reflexivity.
Defined.

End PollingFacts.

(** ** Logging in, acting, logging out *)

Module LoginFacts.
Import Admin AdminRequests Login.
Local Open Scope list_scope.

Lemma submitLogin_accepted userEmail userPassword r fields s :
  is2xx (resp r) -> body (resp r) = Ok (JObject fields) ->
  submitLogin userEmail userPassword (AdminResponded r) s =
  Session (redirect "policies.html"
             (setToken (default VUndefined (fields !! "access_token")) (browser s)))
          (logins s ++ [(userEmail, userPassword)]).
Proof.
  intros H2 Hb. unfold submitLogin.
  rewrite (ApiFacts.ok_true _ H2), Hb. reflexivity.
Qed.

(** X17: The login handler posts the credentials once and sends nothing else.
    It never removes a stored token. When the answer is rejected or has a
    status outside 200..299 it alerts the failure and leaves the token and
    the address alone. When the answer has a status in 200..299 and a
    record for a body, the token is replaced by the string the field
    [access_token] converts to (["undefined"] when the record has no such
    field), the window goes to the policies page and nothing is alerted. *)
Theorem submitLogin_outcome (userEmail userPassword : string)
    (answer : adminOutcome) (s : session) :
  let s' := submitLogin userEmail userPassword answer s in
  logins s' = logins s ++ [(userEmail, userPassword)] /\
  requests (browser s') = requests (browser s) /\
  (accessToken (browser s') = None -> accessToken (browser s) = None) /\
  ((forall r, answer = AdminResponded r -> ~ is2xx (resp r)) ->
   alerts (browser s') = alerts (browser s) ++ [LOGIN_FAILED] /\
   accessToken (browser s') = accessToken (browser s) /\
   location (browser s') = location (browser s)) /\
  (forall r fields,
     answer = AdminResponded r -> is2xx (resp r) ->
     body (resp r) = Ok (JObject fields) ->
     accessToken (browser s') =
       Some (toString (default VUndefined (fields !! "access_token"))) /\
     location (browser s') = "policies.html" /\
     alerts (browser s') = alerts (browser s)).
Proof.
  cbn zeta. split; [ | split; [ | split; [ | split ] ] ].
  - unfold submitLogin. destruct answer as [e | r]; [ reflexivity | ].
    destruct (ok (resp r)); [ | reflexivity ].
    now destruct (body (resp r) ≫= _).
  - unfold submitLogin. destruct answer as [e | r]; [ reflexivity | ].
    destruct (ok (resp r)); [ | reflexivity ].
    now destruct (body (resp r) ≫= _).
  - unfold submitLogin. destruct answer as [e | r]; [ auto | ].
    destruct (ok (resp r)); [ | auto ].
    destruct (body (resp r) ≫= _); [ discriminate | auto ].
  - intros Hno. unfold submitLogin. destruct answer as [e | r]; [ auto | ].
    rewrite (ApiFacts.ok_false _ (Hno r eq_refl)). auto.
  - intros r fields -> H2 Hb. rewrite (submitLogin_accepted _ _ r fields s H2 Hb).
    auto.
Qed.

(** X18: The token a successful login stores is the token the next action
    sends: after a login answered with a non-empty string for
    [access_token], a confirmed [approvePolicy] sends its request with
    that token as bearer; and after a confirmed logout the same call
    sends nothing and goes to the login page. *)
Theorem token_round_trip (userEmail userPassword policyId token : string)
    (onSuccess : bool) (r : adminResponse) (fields : gmap string jsval)
    (put : adminOutcome) (s : session) :
  is2xx (resp r) -> body (resp r) = Ok (JObject fields) ->
  fields !! "access_token" = Some (VStr token) -> token <> "" ->
  let b := browser (submitLogin userEmail userPassword (AdminResponded r) s) in
  requests (approvePolicy policyId onSuccess true put b) =
    requests (browser s) ++ [approveRequest policyId (Some token)] /\
  requests (approvePolicy policyId onSuccess true put (handleLogout true b)) =
    requests (browser s) /\
  location (approvePolicy policyId onSuccess true put (handleLogout true b)) = LOGIN.
Proof.
  intros H2 Hb Hf Hne. cbn zeta.
  rewrite (submitLogin_accepted _ _ r fields s H2 Hb), Hf.
  change (browser (Session ?b _)) with b.
  change (redirect "policies.html"
            (setToken (default VUndefined (Some (VStr token))) (browser s)))
    with (Browser (Some token) "policies.html" (alerts (browser s))
                  (requests (browser s)) (onSuccessCalls (browser s))).
  assert (Hstored : noToken (Some token) = false).
  { cbn. now apply String.eqb_neq. }
  split; [ | split ].
  - unfold approvePolicy.
    cbn [accessToken]. rewrite Hstored. cbn [negb].
    destruct put as [e | response]; [ reflexivity | ].
    destruct (ok (resp response)); cbn [negb];
      [ now rewrite AdminRequestFacts.requests_callOnSuccess | ].
    destruct (status (resp response) =? 401); [ reflexivity | ].
    destruct (status (resp response) =? 403); [ reflexivity | ].
    destruct (status (resp response) =? 404);
      [ now rewrite AdminRequestFacts.requests_callOnSuccess | reflexivity ].
  - reflexivity.
  - reflexivity.
Qed.

Lemma submitLogin_outcome_witness :
  accessToken
    (browser (submitLogin "admin@example.com" "secret"
                (AdminResponded (AdminResponse (Response 200 (Ok (JObject ∅))) "" ""))
                (Session Examples.loggedIn []))) = Some "undefined" /\
  accessToken
    (browser (submitLogin "admin@example.com" "wrong" (Examples.bare 401)
                (Session Examples.loggedIn []))) = Some "token-1".
Proof.
  split.
  - refine (proj1 (proj2 (proj2 (proj2 (proj2
              (submitLogin_outcome "admin@example.com" "secret" _
                 (Session Examples.loggedIn [])))))
              (AdminResponse (Response 200 (Ok (JObject ∅))) "" "") ∅
              eq_refl _ eq_refl)).
    unfold is2xx. cbn. lia.
  - refine (proj1 (proj2 (proj1 (proj2 (proj2 (proj2
              (submitLogin_outcome "admin@example.com" "wrong" (Examples.bare 401)
                 (Session Examples.loggedIn [])))))
              _))).
    intros r E. injection E as <-. unfold is2xx. cbn. lia.
Defined.

Lemma token_round_trip_witness :
  requests
    (approvePolicy "1.1.1" false true (Examples.bare 200)
       (browser (submitLogin "admin@example.com" "secret"
                   (AdminResponded
                      (AdminResponse
                         (Response 200 (Ok (JObject {[ "access_token" := VStr "t-7" ]})))
                         "" ""))
                   (Session (Browser None "login.html" [] [] 0) [])))) =
  [ approveRequest "1.1.1" (Some "t-7") ].
Proof.
  refine (proj1 (token_round_trip "admin@example.com" "secret" "1.1.1" "t-7" false
                   (AdminResponse
                      (Response 200 (Ok (JObject {[ "access_token" := VStr "t-7" ]})))
                      "" "")
                   {[ "access_token" := VStr "t-7" ]} (Examples.bare 200)
                   (Session (Browser None "login.html" [] [] 0) []) _ eq_refl _ _)).
  - unfold is2xx. cbn. lia.
  - reflexivity.
  - discriminate.
Defined.

End LoginFacts.

(** ** Grouping by section *)

Module GroupingFacts.
Import Policies Grouping.
Local Open Scope list_scope.

Lemma owns_In key bySection :
  owns key bySection = true <-> In key (map fst bySection).
Proof.
  unfold owns. rewrite existsb_exists, in_map_iff. split.
  - intros (g & Hin & E). apply String.eqb_eq in E. eauto.
  - intros (g & E & Hin). exists g. split; [ exact Hin | ]. now apply String.eqb_eq.
Qed.

Lemma filedAt_app key a b : filedAt key (a ++ b) = filedAt key a ++ filedAt key b.
Proof. apply List.filter_app. Qed.

Lemma groupAt_update key k p bySection :
  groupAt k (map (fun g : string * list policy =>
                    if String.eqb (fst g) key then (fst g, snd g ++ [p]) else g)
                 bySection) =
  if String.eqb k key
  then match find (fun g => String.eqb (fst g) k) bySection with
       | Some g => snd g ++ [p]
       | None => []
       end
  else groupAt k bySection.
Proof.
  unfold groupAt. induction bySection as [| [k' ps] rest IH]; cbn [map find fst snd].
  - now destruct (String.eqb k key).
  - destruct (String.eqb_spec k' key) as [-> | Hne]; cbn [fst snd].
    + destruct (String.eqb_spec key k) as [-> | Hk].
      * now rewrite String.eqb_refl.
      * rewrite IH. destruct (String.eqb_spec k key); [ congruence | reflexivity ].
    + destruct (String.eqb_spec k' k) as [-> | Hk].
      * destruct (String.eqb_spec k key); [ congruence | reflexivity ].
      * exact IH.
Qed.

Lemma groupAt_new key k p bySection :
  owns key bySection = false ->
  groupAt k (bySection ++ [(key, [p])]) =
  if String.eqb k key then [p] else groupAt k bySection.
Proof.
  unfold groupAt, owns. induction bySection as [| [k' ps] rest IH]; cbn [app find existsb fst snd].
  - intros _. rewrite (String.eqb_sym key k). now destruct (String.eqb k key).
  - intros H. apply orb_false_iff in H as [H1 H2].
    destruct (String.eqb_spec k' k) as [-> | Hk]; cbn [snd].
    + rewrite H1. reflexivity.
    + now apply IH.
Qed.

Lemma file_Ok done bySection p m :
  holds done bySection -> file bySection p = Ok m ->
  holds (done ++ [p]) m /\ misfiled p = false.
Proof.
  intros (Hnd & Hat & Hkeys & Hproto). unfold file, misfiled.
  destruct (owns (sectionKeyOf p) bySection) eqn:Eown.
  - intros H. injection H as <-.
    assert (Hown : In (sectionKeyOf p) (map fst bySection)) by now apply owns_In.
    assert (Hfst : map fst (map (fun g : string * list policy =>
                      if String.eqb (fst g) (sectionKeyOf p)
                      then (fst g, snd g ++ [p]) else g) bySection) =
                   map fst bySection).
    { rewrite map_map. apply map_ext. intros g.
      now destruct (String.eqb (fst g) (sectionKeyOf p)). }
    split.
    + split; [ now rewrite Hfst | ]. split; [ | split; [ | now rewrite Hfst ] ].
      * intros k. rewrite groupAt_update, filedAt_app. cbn [filedAt List.filter].
        rewrite (String.eqb_sym (sectionKeyOf p) k).
        destruct (String.eqb_spec k (sectionKeyOf p)) as [-> | Hk].
        -- specialize (Hat (sectionKeyOf p)). unfold groupAt in Hat.
           destruct (find _ bySection) as [g |] eqn:Ef; [ now rewrite Hat | ].
           exfalso. apply (proj1 (Hkeys _)) in Hown. apply Hown. now rewrite <- Hat.
        -- now rewrite app_nil_r.
      * intros k. rewrite Hfst, filedAt_app, Hkeys. cbn [filedAt List.filter].
        destruct (String.eqb_spec (sectionKeyOf p) k) as [<- | Hk].
        -- split; intros _.
           ++ intros E. apply app_eq_nil in E as [_ E]. discriminate.
           ++ now apply Hkeys.
        -- now rewrite app_nil_r.
    + exact (proj1 (List.Forall_forall _ _) Hproto _ Hown).
  - destruct (existsb (String.eqb (sectionKeyOf p)) prototypeKeys) eqn:Eproto;
      [ discriminate | ].
    intros H. injection H as <-.
    assert (Hnot : ~ In (sectionKeyOf p) (map fst bySection)).
    { intros Hin. apply owns_In in Hin. congruence. }
    assert (Hnone : filedAt (sectionKeyOf p) done = []).
    { destruct (filedAt (sectionKeyOf p) done) eqn:E; [ reflexivity | ].
      exfalso. apply Hnot, Hkeys. now rewrite E. }
    split; [ | reflexivity ].
    unfold holds. rewrite map_app. cbn [map fst].
    split; [ | split; [ | split ] ].
    + apply NoDup_app. split; [ exact Hnd | ]. split; [ | apply NoDup_singleton ].
      intros k Hk Hin. apply list_elem_of_singleton in Hin. subst k.
      apply Hnot. now apply list_elem_of_In.
    + intros k. rewrite (groupAt_new _ _ _ _ Eown), filedAt_app.
      cbn [filedAt List.filter]. rewrite (String.eqb_sym (sectionKeyOf p) k).
      destruct (String.eqb_spec k (sectionKeyOf p)) as [-> | Hk].
      * now rewrite Hnone.
      * now rewrite Hat, app_nil_r.
    + intros k. rewrite in_app_iff, filedAt_app, Hkeys. cbn [filedAt List.filter In].
      destruct (String.eqb_spec (sectionKeyOf p) k) as [<- | Hk].
      * split; [ | auto ]. intros _ E. apply app_eq_nil in E as [_ E]. discriminate.
      * rewrite app_nil_r. split; [ intros [H | [H | []]]; [ exact H | contradiction ] | auto ].
    + apply Forall_app. split; [ exact Hproto | ]. constructor; [ exact Eproto | constructor ].
Qed.

Lemma file_total done bySection p :
  holds done bySection -> misfiled p = false -> exists m, file bySection p = Ok m.
Proof.
  intros _ Hp. unfold file, misfiled in *.
  destruct (owns _ bySection); [ eauto | ]. rewrite Hp. eauto.
Qed.

Lemma groupAll_Ok policies : forall done bySection m,
  holds done bySection -> groupAll bySection policies = Ok m ->
  holds (done ++ policies) m /\ Forall (fun p => misfiled p = false) policies.
Proof.
  induction policies as [| p rest IH]; intros done bySection m Hh H.
  - injection H as <-. rewrite app_nil_r. split; [ exact Hh | constructor ].
  - cbn [groupAll] in H. destruct (file bySection p) as [m1 |] eqn:E; [ | discriminate ].
    cbn in H. destruct (file_Ok _ _ _ _ Hh E) as [Hh1 Hp].
    destruct (IH _ _ _ Hh1 H) as [Hh2 Hrest].
    rewrite <- app_assoc in Hh2. split; [ exact Hh2 | now constructor ].
Qed.

Lemma groupAll_total policies : forall done bySection,
  holds done bySection -> Forall (fun p => misfiled p = false) policies ->
  exists m, groupAll bySection policies = Ok m.
Proof.
  induction policies as [| p rest IH]; intros done bySection Hh Hall; [ eexists; reflexivity | ].
  inversion Hall as [| ? ? Hp Hrest]; subst.
  destruct (file_total _ _ _ Hh Hp) as [m1 E]. cbn [groupAll]. rewrite E. cbn.
  apply (IH (done ++ [p])); [ | exact Hrest ].
  exact (proj1 (file_Ok _ _ _ _ Hh E)).
Qed.

Lemma holds_nil : holds [] [].
Proof.
  split; [ constructor | ]. split; [ reflexivity | ]. split; [ | constructor ].
  intros key. cbn. tauto.
Qed.

(** *** The sorted keys *)

Lemma insertKey_perm key : forall sorted, Permutation (key :: sorted) (insertKey key sorted).
Proof.
  induction sorted as [| y rest IH]; [ reflexivity | ].
  cbn [insertKey]. destruct (_ >? 0); [ | reflexivity ].
  rewrite <- IH. apply perm_swap.
Qed.

Lemma insertKey_ascending key : forall sorted,
  ascending sorted -> ascending (insertKey key sorted).
Proof.
  unfold ascending. induction sorted as [| y rest IH]; intros Hs.
  - repeat constructor.
  - inversion Hs as [| ? ? Hrest Hy]; subst. cbn [insertKey].
    destruct (Z.gtb_spec (codeUnitCompare key y) 0) as [Hgt | Hle].
    + constructor; [ now apply IH | ].
      eapply Permutation_Forall; [ apply insertKey_perm | ].
      constructor; [ | exact Hy ]. apply SorterFacts.codeUnitCompare_total. lia.
    + constructor; [ exact Hs | ]. constructor; [ exact Hle | ].
      eapply List.Forall_impl; [ | exact Hy ]. cbn. intros z Hz.
      now apply (SorterFacts.codeUnitCompare_trans key y z).
Qed.

Lemma sortedKeys_spec bySection :
  Permutation (map fst bySection) (sortedKeys bySection) /\
  ascending (sortedKeys bySection).
Proof.
  unfold sortedKeys. induction (map fst bySection) as [| key keys [IHp IHs]].
  - split; [ reflexivity | constructor ].
  - cbn [foldr]. split.
    + rewrite <- insertKey_perm. now constructor.
    + now apply insertKey_ascending.
Qed.

(** *** Every policy once *)

Lemma filter_split {A} (f : A -> bool) l :
  Permutation (List.filter f l ++ List.filter (fun x => negb (f x)) l) l.
Proof.
  induction l as [| x l IH]; [ reflexivity | ]. cbn [List.filter].
  destruct (f x); cbn [negb app].
  - now constructor.
  - rewrite <- Permutation_middle. now constructor.
Qed.

Lemma flat_map_In_ext {A B} (f g : A -> list B) l :
  (forall a, In a l -> f a = g a) -> flat_map f l = flat_map g l.
Proof.
  induction l as [| a l IH]; intros H; [ reflexivity | ]. cbn [flat_map].
  rewrite (H a (or_introl eq_refl)), IH; [ reflexivity | ].
  intros b Hb. apply H. now right.
Qed.

Lemma filedAt_others key k policies :
  k <> key ->
  filedAt k (List.filter (fun p => negb (String.eqb (sectionKeyOf p) key)) policies) =
  filedAt k policies.
Proof.
  intros Hne. unfold filedAt.
  induction policies as [| p rest IH]; [ reflexivity | ]. cbn [List.filter].
  destruct (String.eqb_spec (sectionKeyOf p) key) as [Ekey | Nkey]; cbn [negb List.filter].
  - destruct (String.eqb_spec (sectionKeyOf p) k) as [Ek | Nk]; [ congruence | exact IH ].
  - destruct (String.eqb (sectionKeyOf p) k); [ now rewrite IH | exact IH ].
Qed.

Lemma filedAt_all keys : forall policies,
  NoDup keys -> (forall p, In p policies -> In (sectionKeyOf p) keys) ->
  Permutation (flat_map (fun key => filedAt key policies) keys) policies.
Proof.
  induction keys as [| key keys IH]; intros policies Hnd Hcover.
  - destruct policies as [| p rest]; [ reflexivity | ].
    destruct (Hcover p (or_introl eq_refl)).
  - apply NoDup_cons in Hnd as [Hnot Hnd]. cbn [flat_map].
    set (others := List.filter (fun p => negb (String.eqb (sectionKeyOf p) key)) policies).
    assert (E : flat_map (fun k => filedAt k policies) keys =
                flat_map (fun k => filedAt k others) keys).
    { apply flat_map_In_ext. intros k Hk. symmetry. apply filedAt_others.
      intros ->. apply Hnot. now apply list_elem_of_In. }
    rewrite E, (IH others Hnd).
    + apply filter_split.
    + intros p Hp. subst others. apply filter_In in Hp as [Hin Hne].
      destruct (Hcover p Hin) as [Ek | Hk]; [ | exact Hk ].
      rewrite <- Ek, String.eqb_refl in Hne. discriminate.
Qed.

(** What grouping returns, read section after section in the order of the
    sorted keys. *)
Lemma groupAll_sections policies bySection :
  groupAll [] policies = Ok bySection ->
  NoDup (sortedKeys bySection) /\ ascending (sortedKeys bySection) /\
  (forall key, In key (sortedKeys bySection) <->
               exists p, In p policies /\ sectionKeyOf p = key) /\
  (forall key, groupAt key bySection = filedAt key policies) /\
  Permutation (flat_map (fun key => filedAt key policies) (sortedKeys bySection))
              policies.
Proof.
  intros H. destruct (groupAll_Ok _ _ _ _ holds_nil H) as [(Hnd & Hat & Hkeys & _) _].
  cbn [app] in *. destruct (sortedKeys_spec bySection) as [Hperm Hasc].
  assert (Hnd' : NoDup (sortedKeys bySection)).
  { now rewrite <- Hperm. }
  assert (Hin : forall key, In key (sortedKeys bySection) <->
                            exists p, In p policies /\ sectionKeyOf p = key).
  { intros key. rewrite <- (Permutation_in' (eq_refl key) Hperm), Hkeys.
    unfold filedAt. split.
    - intros Hne. destruct (List.filter _ policies) as [| p rest] eqn:E; [ contradiction | ].
      assert (Hp : In p (List.filter (fun p => String.eqb (sectionKeyOf p) key) policies))
        by (rewrite E; now left).
      apply filter_In in Hp as [Hp Hk]. apply String.eqb_eq in Hk. eauto.
    - intros (p & Hp & Hk) E.
      assert (Hin : In p (List.filter (fun p => String.eqb (sectionKeyOf p) key) policies)).
      { apply filter_In. split; [ exact Hp | ]. now apply String.eqb_eq. }
      rewrite E in Hin. destruct Hin. }
  split; [ exact Hnd' | ]. split; [ exact Hasc | ]. split; [ exact Hin | ].
  split; [ exact Hat | ].
  apply filedAt_all; [ exact Hnd' | ]. intros p Hp. apply Hin. eauto.
Qed.

End GroupingFacts.

(** ** The policies offered by the suggestion form *)

Module DropdownFacts.
Import Policies Grouping Dropdown GroupingFacts.
Local Open Scope list_scope.

Lemma flat_map_map {A B C} (f : B -> C) (g : A -> list B) l :
  flat_map (fun a => map f (g a)) l = map f (flat_map g l).
Proof.
  induction l as [| a l IH]; [ reflexivity | ]. cbn [flat_map].
  now rewrite map_app, IH.
Qed.

Lemma options_filed key policies :
  map (optionOf (getSectionName key)) (filedAt key policies) =
  map optionOfPolicy (filedAt key policies).
Proof.
  apply map_ext_in. intros p Hp. apply filter_In in Hp as [_ Hk].
  apply String.eqb_eq in Hk. unfold optionOfPolicy. now rewrite Hk.
Qed.

Lemma groupAll_misfiled policies :
  Exists (fun p => misfiled p = true) policies ->
  exists e, groupAll [] policies = Throw e.
Proof.
  intros Hex. destruct (groupAll [] policies) as [m | e] eqn:E; [ | eauto ].
  exfalso. destruct (groupAll_Ok _ _ _ _ holds_nil E) as [_ Hall].
  apply List.Exists_exists in Hex as (p & Hp & Hbad).
  pose proof (proj1 (List.Forall_forall _ _) Hall p Hp) as Hgood.
  cbv beta in Hgood. congruence.
Qed.

(** X19: [populateSuggestionsDropdown] does nothing on a page without the
    [select]. Otherwise it sends one request and starts the list again
    from the option "Select". When no policy comes back, whatever the
    reason, the only other option says so. When policies come back, none
    of them filed under a name of [Object.prototype], every policy gets
    exactly one option, whose value is its [policyId]; the options stand
    section after section, the section keys in ascending order of their
    code units, and within a section in the order of the answer. When a
    policy is filed under a name of [Object.prototype] the function
    throws and leaves "Select" as the only option. *)
Theorem populate_options (api : server) (st : selectPage) :
  let policies := approvedPolicies api (length (requests st)) in
  let outcome := fst (populateSuggestionsDropdown api st) in
  let st' := snd (populateSuggestionsDropdown api st) in
  (options st = None -> outcome = Ok tt /\ st' = st) /\
  (options st <> None ->
   requests st' = requests st ++ [GET APPROVED] /\
   (policies = [] ->
    outcome = Ok tt /\ options st' = Some [SELECT; NONE_AVAILABLE]) /\
   (policies <> [] -> Forall (fun p => misfiled p = false) policies ->
    exists keys,
      outcome = Ok tt /\
      options st' =
        Some (SELECT ::
              flat_map (fun key => map optionOfPolicy (filedAt key policies)) keys) /\
      NoDup keys /\ ascending keys /\
      (forall key, In key keys <-> exists p, In p policies /\ sectionKeyOf p = key) /\
      Permutation
        (flat_map (fun key => map optionOfPolicy (filedAt key policies)) keys)
        (map optionOfPolicy policies)) /\
   (Exists (fun p => misfiled p = true) policies ->
    exists e, outcome = Throw e /\ options st' = Some [SELECT])).
Proof.
  cbn zeta. unfold populateSuggestionsDropdown. split.
  - intros ->. split; reflexivity.
  - intros Hsel. destruct (options st) as [old |]; [ clear Hsel | contradiction ].
    set (policies := approvedPolicies api (length (requests st))).
    split; [ | split; [ | split ] ].
    + destruct (Nat.eqb (length policies) 0); [ reflexivity | ].
      now destruct (groupAll [] policies).
    + intros ->. split; reflexivity.
    + intros Hne Hall.
      destruct policies as [| p rest] eqn:Ep; [ contradiction | ].
      cbn [length Nat.eqb]. rewrite <- Ep in *.
      destruct (groupAll_total policies [] [] holds_nil Hall) as [bySection Hg].
      rewrite Hg. cbn [fst snd options].
      destruct (groupAll_sections policies bySection Hg)
        as (Hnd & Hasc & Hin & Hat & Hperm).
      exists (sortedKeys bySection).
      assert (E : groupedOptions bySection =
                  flat_map (fun key => map optionOfPolicy (filedAt key policies))
                           (sortedKeys bySection)).
      { unfold groupedOptions. apply flat_map_ext. intros key.
        rewrite Hat. apply options_filed. }
      rewrite E. split; [ reflexivity | ]. split; [ reflexivity | ].
      split; [ exact Hnd | ]. split; [ exact Hasc | ]. split; [ exact Hin | ].
      rewrite flat_map_map. now apply Permutation_map.
    + intros Hex. destruct (groupAll_misfiled policies Hex) as [e He].
      destruct policies as [| p rest] eqn:Ep; [ inversion Hex | ].
      cbn [length Nat.eqb]. rewrite He. exists e. split; reflexivity.
Qed.

Lemma populate_options_witness :
  exists opts,
    options (snd (populateSuggestionsDropdown Examples.published
                    (SelectPage (Some []) []))) = Some (SELECT :: opts) /\
    Permutation opts
      (map optionOfPolicy (approvedPolicies Examples.published 0)).
Proof.
  destruct (proj2 (populate_options Examples.published (SelectPage (Some []) [])))
    as (_ & _ & Hsome & _); [ discriminate | ].
  destruct Hsome as (keys & _ & Hopts & _ & _ & _ & Hperm).
  - vm_compute. discriminate.
  - vm_compute. repeat constructor.
  - eexists. split; [ exact Hopts | exact Hperm ].
Defined.

End DropdownFacts.

(** ** The page of one policy *)

Module DetailFacts.
Import Policies Grouping Detail GroupingFacts.
Local Open Scope list_scope.



Section WithServer.

Variable localeCompare : string -> string -> Z.
Variable toLocaleDateString : jsval -> string.
Variable api : server.

Hypothesis localeCompare_total :
  forall a b, 0 < localeCompare a b -> localeCompare b a <= 0.
Hypothesis localeCompare_trans :
  forall a b c,
    localeCompare a b <= 0 -> localeCompare b c <= 0 -> localeCompare a c <= 0.




Lemma updatePolicySidebar_frame current st :
  let st' := snd (updatePolicySidebar localeCompare api current st) in
  notFound st' = notFound st /\ policyNumber st' = policyNumber st /\
  policyTitle st' = policyTitle st /\ policyContent st' = policyContent st /\
  policyUpdated st' = policyUpdated st /\
  (sidebar st = None -> requests st' = requests st) /\
  (sidebar st <> None -> requests st' = requests st ++ [GET APPROVED]).
Proof.
  cbn zeta. unfold updatePolicySidebar.
  destruct (sidebar st) as [old |]; [ | repeat split; congruence ].
  destruct (Nat.eqb _ 0);
    [ | destruct (groupAll [] _ ≫= sidebarSections localeCompare) ];
    repeat split; intros; congruence.
Qed.

Lemma mapDetail_throws j :
  (exists e, mapDetail j = Throw e) <-> j = JPrim VNull \/ j = JPrim VUndefined.
Proof.
  split.
  - intros [e H]. destruct j as [[| | b | n | s] | fields | elems];
      try discriminate; auto.
  - intros [-> | ->]; eexists; reflexivity.
Qed.

(** X21: [loadPolicyDetail] on a page with the container. Without an [id] in
    the address it shows "Policy not found" and sends nothing. With one it
    asks for that policy. When the request fails, or its answer is [null],
    it shows "Policy not found", leaves the four elements and the sidebar
    alone, and sends nothing more. Otherwise it writes the number, the
    title (["Untitled"] without a name) and the content (a note without
    one) into the elements the document has, and updates the sidebar: on a
    page without a sidebar that is all; on a page with one it sends the
    second request, and it shows "Policy not found" after all exactly when
    the update of the sidebar throws, although the policy was found and
    written. *)
Theorem loadPolicyDetail_outcome (st : detailPage) :
  hasContainer st = true -> notFound st = false ->
  let st' := loadPolicyDetail localeCompare toLocaleDateString api st in
  (query_id st = None \/ query_id st = Some "" ->
   notFound st' = true /\ requests st' = requests st) /\
  (forall policyId,
     query_id st = Some policyId -> policyId <> "" ->
     let asked := ask (detailRequest policyId) st in
     match apiRequest_settle (api (length (requests st)) (detailRequest policyId))
           ≫= mapDetail with
     | Throw _ =>
         notFound st' = true /\ requests st' = requests st ++ [detailRequest policyId] /\
         sidebar st' = sidebar st /\ policyNumber st' = policyNumber st /\
         policyTitle st' = policyTitle st /\ policyContent st' = policyContent st
     | Ok mappedPolicy =>
         (policyNumber st <> None ->
          policyNumber st' =
            Some ("Policy # " ++ toString (detail_policyId mappedPolicy))%string) /\
         (policyTitle st <> None ->
          policyTitle st' =
            Some (toString (or_else (detail_name mappedPolicy) (VStr "Untitled")))) /\
         (policyContent st <> None ->
          policyContent st' =
            Some ("<p>" ++ toString (or_else (detail_content mappedPolicy)
                                             (VStr "No content available.")) ++
                  "</p>")%string) /\
         (sidebar st = None ->
          notFound st' = false /\
          requests st' = requests st ++ [detailRequest policyId]) /\
         (sidebar st <> None ->
          requests st' = requests st ++ [detailRequest policyId; GET APPROVED] /\
          (notFound st' = true <->
           exists e,
             fst (updatePolicySidebar localeCompare api mappedPolicy
                    (fill toLocaleDateString mappedPolicy asked)) = Throw e))
     end).
Proof.
  intros Hc Hnf. cbn zeta. unfold loadPolicyDetail. rewrite Hc. cbn [negb]. split.
  - intros [-> | ->]; split; reflexivity.
  - intros policyId -> Hid. destruct (String.eqb_spec policyId ""); [ contradiction | ].
    destruct (apiRequest_settle _ ≫= mapDetail) as [mappedPolicy | e];
      [ | repeat split ].
    set (asked := ask (detailRequest policyId) st).
    set (filled := fill toLocaleDateString mappedPolicy asked).
    pose proof (updatePolicySidebar_frame mappedPolicy filled)
      as (Hn & Hnum & Htitle & Hcontent & _ & Hnone & Hsome).
    cbn zeta in *.
    destruct (updatePolicySidebar localeCompare api mappedPolicy filled)
      as [[u | e] st2] eqn:Eu; cbn [fst snd] in *;
      cbn [policyNumber policyTitle policyContent notFound requests showNotFound].
    + rewrite Hnum, Htitle, Hcontent, Hn.
      split; [ | split; [ | split; [ | split ] ] ].
      * subst filled. cbn. destruct (policyNumber st); [ reflexivity | contradiction ].
      * subst filled. cbn. destruct (policyTitle st); [ reflexivity | contradiction ].
      * subst filled. cbn. destruct (policyContent st); [ reflexivity | contradiction ].
      * intros Hs. split; [ exact Hnf | ]. now rewrite (Hnone Hs).
      * intros Hs. rewrite (Hsome Hs). subst filled asked. cbn.
        rewrite <- app_assoc. split; [ reflexivity | ].
        split; [ congruence | intros [e He]; discriminate ].
    + rewrite Hnum, Htitle, Hcontent.
      split; [ | split; [ | split; [ | split ] ] ].
      * subst filled. cbn. destruct (policyNumber st); [ reflexivity | contradiction ].
      * subst filled. cbn. destruct (policyTitle st); [ reflexivity | contradiction ].
      * subst filled. cbn. destruct (policyContent st); [ reflexivity | contradiction ].
      * intros Hs. exfalso. revert Eu. unfold updatePolicySidebar.
        subst filled asked. cbn [sidebar fill ask]. rewrite Hs. discriminate.
      * intros Hs. rewrite (Hsome Hs). subst filled asked. cbn.
        rewrite <- app_assoc. split; [ reflexivity | ].
        split; [ eauto | reflexivity ].
Qed.

End WithServer.

(** *** A policy page on the example servers *)


Lemma loadPolicyDetail_outcome_witness :
  notFound
    (loadPolicyDetail codeUnitCompare (fun _ => "") Examples.oddRecord
       (DetailPage (Some "9.1") true false (Some "") (Some "") (Some "") (Some "")
                   None [])) = false /\
  notFound
    (loadPolicyDetail codeUnitCompare (fun _ => "") Examples.published
       (DetailPage None true false (Some "") (Some "") (Some "") (Some "")
                   (Some AsServed) [])) = true.
Proof.
  split.
  - pose proof (proj2 (loadPolicyDetail_outcome codeUnitCompare (fun _ => "")
                         Examples.oddRecord
                         (DetailPage (Some "9.1") true false (Some "") (Some "")
                                     (Some "") (Some "") None [])
                         eq_refl eq_refl) "9.1" eq_refl) as H.
    cbn zeta in H. 
    assert (Hid : "9.1" <> "") by discriminate. specialize (H Hid).
    vm_compute in H. exact (proj1 (proj1 (proj2 (proj2 (proj2 H))) eq_refl)).
  - refine (proj1 (proj1 (loadPolicyDetail_outcome codeUnitCompare (fun _ => "")
                            Examples.published
                            (DetailPage None true false (Some "") (Some "") (Some "")
                                        (Some "") (Some AsServed) [])
                            eq_refl eq_refl) _)).
    left. reflexivity.
Defined.

End DetailFacts.

(** ** The profile panel *)

Module ProfileFacts.
Import Admin AdminRequests Profile.
Local Open Scope list_scope.

Lemma loadProfileData_browser me st :
  browser (loadProfileData me st) =
  if noToken (accessToken (browser st)) then browser st
  else send (meRequest (accessToken (browser st))) (browser st).
Proof.
  unfold loadProfileData. destruct (noToken _); [ reflexivity | ].
  destruct me as [e | response]; [ reflexivity | ].
  destruct (ok (resp response)); [ | reflexivity ].
  now destruct (body (resp response) ≫= _) as [[name email] |].
Qed.

Lemma loadProfileData_hidden me st :
  panelHidden (loadProfileData me st) = panelHidden st.
Proof.
  unfold loadProfileData. destruct (noToken _); [ reflexivity | ].
  destruct me as [e | response]; [ reflexivity | ].
  destruct (ok (resp response)); [ | reflexivity ].
  now destruct (body (resp response) ≫= _) as [[name email] |].
Qed.

Lemma toggleProfilePanel_hidden me st :
  panelHidden (toggleProfilePanel me st) = negb <$> panelHidden st.
Proof.
  unfold toggleProfilePanel. destruct (panelHidden st) as [[|] |] eqn:Eh.
  - now rewrite loadProfileData_hidden.
  - reflexivity.
  - now rewrite Eh.
Qed.

Lemma toggleProfilePanel_browser me st :
  browser (toggleProfilePanel me st) =
  if bool_decide (panelHidden st = Some true) &&
     negb (noToken (accessToken (browser st)))
  then send (meRequest (accessToken (browser st))) (browser st)
  else browser st.
Proof.
  unfold toggleProfilePanel. destruct (panelHidden st) as [[|] |] eqn:Eh.
  - rewrite loadProfileData_browser. cbn [browser].
    rewrite bool_decide_eq_true_2 by reflexivity.
    now destruct (noToken (accessToken (browser st))).
  - now rewrite bool_decide_eq_false_2 by discriminate.
  - now rewrite bool_decide_eq_false_2 by discriminate.
Qed.

(** X22: The profile panel asks who the user is exactly when a click opens it
    and a token is stored: one request, carrying that token; a click that
    closes it, and [closeProfilePanel], send nothing. No click changes the
    stored token, the address or the alerts. After the request the name
    shown is the [name] of the answer when the answer has a status in
    200..299 and a record with a truthy [name], and ["-"] in every other
    case; two clicks leave the panel as hidden or shown as it was. *)
Theorem profile_panel (me me' : adminOutcome) (st : panel) :
  let token := accessToken (browser st) in
  let clicked := toggleProfilePanel me st in
  requests (browser clicked) =
    requests (browser st) ++
    (if bool_decide (panelHidden st = Some true) && negb (noToken token)
     then [meRequest token] else []) /\
  accessToken (browser clicked) = token /\
  location (browser clicked) = location (browser st) /\
  alerts (browser clicked) = alerts (browser st) /\
  browser (closeProfilePanel st) = browser st /\
  panelHidden (toggleProfilePanel me' clicked) = panelHidden st /\
  (panelHidden st = Some true -> noToken token = false ->
   forall shown, profileName st = Some shown ->
     (forall r fields name,
        me = AdminResponded r -> is2xx (resp r) ->
        body (resp r) = Ok (JObject fields) ->
        fields !! "name" = Some name -> truthy name = true ->
        profileName clicked = Some (toString name)) /\
     ((forall r, me = AdminResponded r -> ~ is2xx (resp r)) ->
      profileName clicked = Some "-")).
Proof.
  cbn zeta. rewrite !toggleProfilePanel_hidden, toggleProfilePanel_browser.
  split; [ | split; [ | split; [ | split; [ | split; [ | split ] ] ] ] ].
  - destruct (_ && _); [ reflexivity | now rewrite app_nil_r ].
  - now destruct (_ && _).
  - now destruct (_ && _).
  - now destruct (_ && _).
  - unfold closeProfilePanel. now destruct (panelHidden st).
  - destruct (panelHidden st) as [[|] |]; reflexivity.
  - intros Eh Et shown Hshown. unfold toggleProfilePanel. rewrite Eh.
    unfold loadProfileData. cbn [browser profileName negb]. rewrite Et. split.
    + intros r fields name -> H2 Hb Hf Hn.
      rewrite (ApiFacts.ok_true _ H2), Hb. cbn.
      rewrite Hf, Hshown. cbn. unfold or_else. now rewrite Hn.
    + intros Hno. destruct me as [e | r]; [ cbn; now rewrite Hshown | ].
      rewrite (ApiFacts.ok_false _ (Hno r eq_refl)). cbn. now rewrite Hshown.
Qed.

Lemma profile_panel_witness :
  profileName
    (toggleProfilePanel
       (AdminResponded
          (AdminResponse (Response 200 (Ok (JObject {[ "name" := VStr "Ada" ]}))) "" ""))
       (Panel (Some true) (Some "") (Some "") Examples.loggedIn)) = Some "Ada" /\
  profileName
    (toggleProfilePanel (Examples.bare 500)
       (Panel (Some true) (Some "Ada") (Some "") Examples.loggedIn)) = Some "-".
Proof.
  split.
  - refine (proj1 (proj2 (proj2 (proj2 (proj2 (proj2 (proj2
              (profile_panel _ (Examples.bare 500)
                 (Panel (Some true) (Some "") (Some "") Examples.loggedIn)))))))
              eq_refl eq_refl "" eq_refl)
              (AdminResponse (Response 200 (Ok (JObject {[ "name" := VStr "Ada" ]})))
                             "" "")
              {[ "name" := VStr "Ada" ]} (VStr "Ada") eq_refl _ eq_refl eq_refl eq_refl).
    unfold is2xx. cbn. lia.
  - refine (proj2 (proj2 (proj2 (proj2 (proj2 (proj2 (proj2
              (profile_panel (Examples.bare 500) (Examples.bare 500)
                 (Panel (Some true) (Some "Ada") (Some "") Examples.loggedIn)))))))
              eq_refl eq_refl "Ada" eq_refl) _).
    intros r E. injection E as <-. unfold is2xx. cbn. lia.
Defined.

End ProfileFacts.
